(** * Vehicle-to-site association tracking (script_python/sites_association.py)

    A shallow embedding of the association script of TuSTScenario and the
    properties of its control loop.

    Conventions of the embedding.
    - A finite Python float is a rational number: the script only compares
      floats, it never computes with them.  [float('inf')] is the extra
      value [Inf] of [pyfloat].
    - [poi_pos] (a dict iterated in order by [new_cell_site]) is an
      association list in iteration order; [vehicles] (a dict only read by
      key, written by key and deleted by key) is a [gmap].
    - Everything the script asks libsumo, sumolib, pandas, [random] and the
      process environment is a field of the record [environment].
    - An exception is a value of [exn]; a run returns the state reached
      together with the exception that stopped it, if any.
    - The DataFrame echo of each generated site and the final timing line
      on standard output are not modelled, nor is the order of the rows
      inside one snapshot of the association file. *)

From stdpp Require Import gmap strings list fin_maps pretty.
From Stdlib Require Import QArith Qabs.

(** ** Python values *)

Inductive pyfloat : Type :=
| Finite (q : Q)
| Inf.

(** [a < b] on floats. *)
Definition float_lt (a b : pyfloat) : bool :=
  match a, b with
  | Finite x, Finite y => negb (Qle_bool y x)
  | Finite _, Inf => true
  | Inf, _ => false
  end.

(** [a <= b] on floats. *)
Definition float_le (a b : pyfloat) : bool :=
  match a, b with
  | Finite x, Finite y => Qle_bool x y
  | _, Inf => true
  | Inf, Finite _ => false
  end.

(** [int(f)] for a finite float: truncation toward zero. *)
Definition int_of_float (f : Q) : Z := (Qnum f ÷ Z.pos (Qden f))%Z.

(** Truthiness of a string: [not s] holds of the empty string only. *)
Definition truthy_str (s : string) : bool := negb (String.eqb s "").

Inductive exn : Type :=
| SystemExit (msg : string)
| TypeError (msg : string)
| ValueError
| IOError (path : string)
| ZeroDivisionError
| KeyError (key : string).

Inductive result (A : Type) : Type :=
| Ok (a : A)
| Raise (e : exn).
Arguments Ok {A} a.
Arguments Raise {A} e.

Definition coord : Type := Q * Q.

(** ** What one call of [libsumo.simulationStep] makes observable *)

Record step_events : Type := {
  getArrivedIDList : list string;
  getEndingTeleportIDList : list string;
  getDepartedIDList : list string;
  getAllSubscriptionResults : list (string * coord)
}.

(** ** The state of the loop *)

Record tracker : Type := {
  vehicles : gmap string (option string);
  stdout : list string;
  output_csv : list (Z * string * option string);
  subscribed : list string;
  sim_steps : nat
}.

Definition arrived_msg : string :=
  "Error during the removal of the arrived vehicles".
Definition teleported_msg : string :=
  "Error during the removal of the teleported vehicles".

(** [try: del vehicles[veh_id] except: print(msg)] *)
Definition remove_vehicle (msg : string)
    (st : gmap string (option string) * list string) (veh_id : string)
  : gmap string (option string) * list string :=
  match st.1 !! veh_id with
  | Some _ => (delete veh_id st.1, st.2)
  | None => (st.1, st.2 ++ [msg])
  end.

Fixpoint remove_all (msg : string) (ids : list string)
    (st : gmap string (option string) * list string)
  : gmap string (option string) * list string :=
  match ids with
  | [] => st
  | veh_id :: rest => remove_all msg rest (remove_vehicle msg st veh_id)
  end.

(** [poi_pos[poi_id]] *)
Fixpoint poi_lookup (poi_pos : list (string * coord)) (poi_id : string)
  : option coord :=
  match poi_pos with
  | [] => None
  | (id, c) :: rest =>
      if String.eqb id poi_id then Some c else poi_lookup rest poi_id
  end.

(** [write_positions]: one row per entry of [vehicles]. *)
Definition write_positions (vehicles : gmap string (option string))
    (step : Z) (file : list (Z * string * option string))
  : list (Z * string * option string) :=
  file ++ ((λ kv : string * option string, (step, kv.1, kv.2))
             <$> map_to_list vehicles).

Section Loop.

(** [libsumo.simulation.getDistance2D(x1, y1, x2, y2)] *)
Variable getDistance2D : Q → Q → Q → Q → Q.

(** The events made observable by the n-th call of [simulationStep]. *)
Variable simulationStep : nat → step_events.

(** The body of the scan of [new_cell_site], from a running minimum. *)
Fixpoint scan_sites (items : list (string * coord)) (veh_coord : coord)
    (new_site : option string * pyfloat) : option string * pyfloat :=
  match items with
  | [] => new_site
  | (id, poi_coord) :: rest =>
      let dist :=
        Finite (getDistance2D poi_coord.1 poi_coord.2
                              veh_coord.1 veh_coord.2) in
      scan_sites rest veh_coord
        (if float_lt dist new_site.2 then (Some id, dist) else new_site)
  end.

Definition new_cell_site (poi_pos : list (string * coord))
    (veh_coord : coord) (max_dist : Q) : option string :=
  let new_site := scan_sites poi_pos veh_coord (None, Inf) in
  if float_le new_site.2 (Finite max_dist) then new_site.1 else None.

Definition check_connection (poi_coord veh_coord : coord) (dist : Q)
  : bool :=
  float_lt (Finite dist)
    (Finite (getDistance2D poi_coord.1 poi_coord.2
                           veh_coord.1 veh_coord.2)).

(** The loop over [getAllSubscriptionResults().items()]: [poi_id] is
    [vehicles.get(key, None)], and the test is
    [not poi_id or (check and check_connection(poi_pos[poi_id], ...))]. *)
Fixpoint assign_sites (poi_pos : list (string * coord)) (check : bool)
    (distance : Z) (items : list (string * coord))
    (vehicles : gmap string (option string))
  : gmap string (option string) * option exn :=
  match items with
  | [] => (vehicles, None)
  | (key, coordinates_veh) :: rest =>
      let poi_id := default None (vehicles !! key) in
      let resolved :=
        <[key := new_cell_site poi_pos coordinates_veh (inject_Z distance)]>
          vehicles in
      match poi_id with
      | Some s =>
          if truthy_str s then
            if check then
              match poi_lookup poi_pos s with
              | None => (vehicles, Some (KeyError s))
              | Some poi_coord =>
                  if check_connection poi_coord coordinates_veh
                       (inject_Z distance)
                  then assign_sites poi_pos check distance rest resolved
                  else assign_sites poi_pos check distance rest vehicles
              end
            else assign_sites poi_pos check distance rest vehicles
          else assign_sites poi_pos check distance rest resolved
      | None => assign_sites poi_pos check distance rest resolved
      end
  end.

(** One iteration of [for step in range(args.time+1)]; [interval] is
    [args.step] and [distance] is [args.distance]. *)
Definition loop_iteration (poi_pos : list (string * coord))
    (interval distance : Z) (step : Z) (st : tracker)
  : tracker * option exn :=
  if (interval =? 0)%Z then (st, Some ZeroDivisionError)
  else
    let check := (step `mod` interval =? 0)%Z in
    let ev := simulationStep (sim_steps st) in
    let r1 := remove_all arrived_msg (getArrivedIDList ev)
                (vehicles st, stdout st) in
    let r2 := remove_all teleported_msg (getEndingTeleportIDList ev) r1 in
    let subs := subscribed st ++ getDepartedIDList ev in
    let r3 := assign_sites poi_pos check distance
                (getAllSubscriptionResults ev) r2.1 in
    match r3.2 with
    | Some e =>
        ({| vehicles := r3.1; stdout := r2.2;
            output_csv := output_csv st; subscribed := subs;
            sim_steps := S (sim_steps st) |}, Some e)
    | None =>
        ({| vehicles := r3.1; stdout := r2.2;
            output_csv :=
              if check then write_positions r3.1 step (output_csv st)
              else output_csv st;
            subscribed := subs;
            sim_steps := S (sim_steps st) |}, None)
    end.

(** The loop itself, over the list of its step numbers. *)
Fixpoint run_loop (poi_pos : list (string * coord))
    (interval distance : Z) (steps : list Z) (st : tracker)
  : tracker * option exn :=
  match steps with
  | [] => (st, None)
  | step :: rest =>
      match loop_iteration poi_pos interval distance step st with
      | (st', None) => run_loop poi_pos interval distance rest st'
      | (st', Some e) => (st', Some e)
      end
  end.

End Loop.

(** ** Start-up *)

Record Args : Type := {
  arg_cell_sites : option Z;
  arg_time : Z;
  arg_step : Z;
  arg_distance : Z;
  arg_input : option string;
  arg_output : string;
  arg_sumo_cfg : string;
  arg_sumo_net : option string
}.

Record environment : Type := {
  (** ['SUMO_HOME' in os.environ] *)
  SUMO_HOME : bool;
  env_getDistance2D : Q → Q → Q → Q → Q;
  env_simulationStep : nat → step_events;
  (** [libsumo.simulation.getNetBoundary()]: lower-left, upper-right *)
  getNetBoundary : coord * coord;
  (** the points of interest loaded by [libsumo.start] itself *)
  config_pois : list (string * coord);
  (** [pandas.read_csv(path)]: per row [str(row[1])], [row[2]], [row[3]] *)
  read_csv : string → option (list (string * Q * Q));
  (** [net.readNet(path).convertLonLat2XY] *)
  readNet : string → option (Q → Q → coord);
  (** the n-th number drawn from the generator of [random] *)
  random_source : nat → Z
}.

(** What start-up builds: libsumo's container of points of interest, the
    rows of [output_sites_pos.csv], the number of draws made so far. *)
Record setup_state : Type := {
  pois : list (string * coord);
  sites_csv : list (string * Z * Z);
  draws : nat
}.

(** [random.randint(a, b)], from one raw draw. *)
Definition randint (a b : Z) (raw : Z) : result Z :=
  if (b <? a)%Z then Raise ValueError
  else Ok (a + raw `mod` (b - a + 1))%Z.

(** [libsumo.poi.add(id, x, y, color)]: refused when the id is taken. *)
Definition poi_add (id : string) (c : coord) (pois : list (string * coord))
  : list (string * coord) :=
  match poi_lookup pois id with
  | Some _ => pois
  | None => pois ++ [(id, c)]
  end.

(** The loop over [sites.itertuples()]. *)
Fixpoint add_file_sites (convertLonLat2XY : Q → Q → coord)
    (rows : list (string * Q * Q)) (pois : list (string * coord))
  : list (string * coord) :=
  match rows with
  | [] => pois
  | (id, lat, long) :: rest =>
      add_file_sites convertLonLat2XY rest
        (poi_add id (convertLonLat2XY long lat) pois)
  end.

(** The loop [for i in range(args.cell_sites)]. *)
Fixpoint generate_sites (random_source : nat → Z)
    (x_min x_max y_min y_max : Z) (ids : list Z) (s : setup_state)
  : setup_state * option exn :=
  match ids with
  | [] => (s, None)
  | i :: rest =>
      match randint x_min x_max (random_source (draws s)) with
      | Raise e => (s, Some e)
      | Ok x =>
          match randint y_min y_max (random_source (S (draws s))) with
          | Raise e =>
              ({| pois := pois s; sites_csv := sites_csv s;
                  draws := S (draws s) |}, Some e)
          | Ok y =>
              generate_sites random_source x_min x_max y_min y_max rest
                {| pois := poi_add (pretty i) (inject_Z x, inject_Z y)
                             (pois s);
                   sites_csv := sites_csv s ++ [(pretty i, x, y)];
                   draws := S (S (draws s)) |}
          end
      end
  end.

Definition no_net_msg : string := "You need to provide the sumo net file".
Definition no_source_msg : string :=
  "You need to provide at least one argument between the input sites file and the number of sites to generate".
Definition no_home_msg : string :=
  "Please declare environment variable 'SUMO_HOME'".

(** Truthiness of [args.input] and of [args.cell_sites]. *)
Definition truthy_input (input : option string) : bool :=
  match input with
  | Some s => truthy_str s
  | None => false
  end.

Definition truthy_count (n : option Z) : bool :=
  match n with
  | Some k => negb (k =? 0)%Z
  | None => false
  end.

(** The [if args.input: ... elif args.cell_sites: ... else: ...] of [main],
    from libsumo's state right after [libsumo.start]. *)
Definition build_sites (env : environment) (args : Args)
  : setup_state * option exn :=
  let s0 := {| pois := config_pois env; sites_csv := []; draws := 0 |} in
  if truthy_input (arg_input args) then
    match arg_sumo_net args with
    | None => (s0, Some (TypeError no_net_msg))
    | Some net_path =>
        let path := default "" (arg_input args) in
        match read_csv env path with
        | None => (s0, Some (IOError path))
        | Some rows =>
            match readNet env net_path with
            | None => (s0, Some (IOError net_path))
            | Some convertLonLat2XY =>
                ({| pois := add_file_sites convertLonLat2XY rows
                              (config_pois env);
                    sites_csv := []; draws := 0 |}, None)
            end
        end
    end
  else if truthy_count (arg_cell_sites args) then
    let '(x_y_min, x_y_max) := getNetBoundary env in
    let x_max := int_of_float x_y_max.1 in
    let y_max := int_of_float x_y_max.2 in
    let x_min := int_of_float x_y_min.1 in
    let y_min := int_of_float x_y_min.2 in
    generate_sites (random_source env) x_min x_max y_min y_max
      (seqZ 0 (default 0%Z (arg_cell_sites args))) s0
  else (s0, Some (TypeError no_source_msg)).

(** The tracker before the first iteration: [vehicles = {}], the
    association file holding its header only. *)
Definition initial_tracker : tracker :=
  {| vehicles := ∅; stdout := []; output_csv := [];
     subscribed := []; sim_steps := 0 |}.

(** The state of libsumo before [libsumo.start]. *)
Definition not_started : setup_state :=
  {| pois := []; sites_csv := []; draws := 0 |}.

(** [range(args.time+1)] *)
Definition loop_steps (args : Args) : list Z := seqZ 0 (arg_time args + 1).

Definition main (env : environment) (args : Args)
  : setup_state * tracker * option exn :=
  if SUMO_HOME env then
    match build_sites env args with
    | (s, Some e) => (s, initial_tracker, Some e)
    | (s, None) =>
        (* {poi_id: getPosition(poi_id) for poi_id in getIDList()} *)
        let poi_pos := pois s in
        let r := run_loop (env_getDistance2D env) (env_simulationStep env)
                   poi_pos (arg_step args) (arg_distance args)
                   (loop_steps args) initial_tracker in
        (s, r.1, r.2)
    end
  else (not_started, initial_tracker, Some (SystemExit no_home_msg)).

(** ** Statements used by the theorems *)

Section Statements.

Variable getDistance2D : Q → Q → Q → Q → Q.

(** The distance [new_cell_site] and [check_connection] compute between
    a site at [poi_coord] and a vehicle at [veh_coord]. *)
Definition site_distance (poi_coord veh_coord : coord) : Q :=
  getDistance2D poi_coord.1 poi_coord.2 veh_coord.1 veh_coord.2.

(** Entry [i] of the registry is [(id, c)], no site is nearer to
    [veh_coord] than it, and every site before it is strictly further. *)
Definition first_nearest (poi_pos : list (string * coord))
    (veh_coord : coord) (i : nat) (id : string) (c : coord) : Prop :=
  poi_pos !! i = Some (id, c)
  ∧ (∀ j id' c', poi_pos !! j = Some (id', c') →
       (site_distance c veh_coord <= site_distance c' veh_coord)%Q)
  ∧ (∀ j id' c', (j < i)%nat → poi_pos !! j = Some (id', c') →
       (site_distance c veh_coord < site_distance c' veh_coord)%Q).

(** [r] is the first nearest site when that one is within [max_dist],
    and [None] when it is further (or when there is no site). *)
Definition nearest_in_range (poi_pos : list (string * coord))
    (veh_coord : coord) (max_dist : Q) (r : option string) : Prop :=
  match poi_pos with
  | [] => r = None
  | _ :: _ =>
      ∃ i id c, first_nearest poi_pos veh_coord i id c
        ∧ ((site_distance c veh_coord <= max_dist)%Q → r = Some id)
        ∧ ((max_dist < site_distance c veh_coord)%Q → r = None)
  end.

End Statements.

(** Every site id recorded for a vehicle is a key of the registry. *)
Definition registry_closed (poi_pos : list (string * coord))
    (vehicles : gmap string (option string)) : Prop :=
  ∀ key s, vehicles !! key = Some (Some s) → is_Some (poi_lookup poi_pos s).

(** [vehicles] and the printed lines once both removal loops of an
    iteration ran on the events [ev]. *)
Definition after_removals (ev : step_events) (st : tracker)
  : gmap string (option string) * list string :=
  remove_all teleported_msg (getEndingTeleportIDList ev)
    (remove_all arrived_msg (getArrivedIDList ev)
       (vehicles st, stdout st)).

(** A point inside the box spanned by [x_y_min] and [x_y_max]. *)
Definition in_bounding_box (box : coord * coord) (x y : Z) : Prop :=
  (box.1.1 <= inject_Z x)%Q ∧ (inject_Z x <= box.2.1)%Q
  ∧ (box.1.2 <= inject_Z y)%Q ∧ (inject_Z y <= box.2.2)%Q.

(** A point inside the box once its four bounds went through [int]. *)
Definition in_truncated_box (box : coord * coord) (x y : Z) : Prop :=
  (int_of_float box.1.1 ≤ x ≤ int_of_float box.2.1)%Z
  ∧ (int_of_float box.1.2 ≤ y ≤ int_of_float box.2.2)%Z.

(** The registry entries of the rows of [output_sites_pos.csv]. *)
Definition site_entries (rows : list (string * Z * Z))
  : list (string * coord) :=
  (λ r : string * Z * Z, (r.1.1, (inject_Z r.1.2, inject_Z r.2))) <$> rows.

Definition with_cell_sites (n : option Z) (args : Args) : Args :=
  {| arg_cell_sites := n; arg_time := arg_time args;
     arg_step := arg_step args; arg_distance := arg_distance args;
     arg_input := arg_input args; arg_output := arg_output args;
     arg_sumo_cfg := arg_sumo_cfg args; arg_sumo_net := arg_sumo_net args |}.

Definition with_step (k : Z) (args : Args) : Args :=
  {| arg_cell_sites := arg_cell_sites args; arg_time := arg_time args;
     arg_step := k; arg_distance := arg_distance args;
     arg_input := arg_input args; arg_output := arg_output args;
     arg_sumo_cfg := arg_sumo_cfg args; arg_sumo_net := arg_sumo_net args |}.


(** A point less than one unit away from the box, on each axis. *)
Definition near_bounding_box (box : coord * coord) (x y : Z) : Prop :=
  (box.1.1 - 1 < inject_Z x)%Q ∧ (inject_Z x < box.2.1 + 1)%Q
  ∧ (box.1.2 - 1 < inject_Z y)%Q ∧ (inject_Z y < box.2.2 + 1)%Q.

(** One row of the association file: step, vehicle id, site id. *)
Definition row_step (row : Z * string * option string) : Z := row.1.1.
Definition row_vehicle (row : Z * string * option string) : string :=
  row.1.2.
Definition row_site (row : Z * string * option string) : option string :=
  row.2.

(** ** script_python/sites_analysis.py: the loop of [num_changes]

    [df_in] after [fillna('0')] is the list of its rows, each the vehicle
    id [row[1]] and the site value [row[2]].  A vehicle id is a value of
    a countable type (a key of the dict [changes]), a site value a value
    of a type with decidable equality, which [!=] decides; [nosite] is
    the string '0' that fills the missing ones.  Reading the file and
    sorting and writing the counts are left to pandas. *)

Section NumChanges.

Context {K : Type} `{Countable K} {V : Type} `{EqDecision V}.

Variable nosite : V.

(** The body of [for row in df_in.itertuples()]. *)
Definition count_row (changes : gmap K (V * Z)) (row : K * V)
  : gmap K (V * Z) :=
  let vehicle_counter := default (nosite, 0%Z) (changes !! row.1) in
  if decide (vehicle_counter.1 ≠ row.2)
  then <[row.1 := (row.2, (vehicle_counter.2 + 1)%Z)]> changes
  else changes.

Fixpoint count_rows (rows : list (K * V))
    (changes : gmap K (V * Z)) : gmap K (V * Z) :=
  match rows with
  | [] => changes
  | row :: rest => count_rows rest (count_row changes row)
  end.

(** [changes] once the loop of [num_changes] ran, from [changes = {}]. *)
Definition num_changes_loop (rows : list (K * V))
  : gmap K (V * Z) :=
  count_rows rows ∅.

(** [changes_counter]: one record per entry of [changes]. *)
Definition changes_counter (changes : gmap K (V * Z))
  : list (K * Z) :=
  (λ kv : K * (V * Z), (kv.1, kv.2.2)) <$> map_to_list changes.

(** The site values of the rows of one vehicle, in the order of the file. *)
Definition sites_of (veh_id : K) (rows : list (K * V)) : list V :=
  (filter (λ row : K * V, row.1 = veh_id) rows).*2.

(** The number of values of [vs] that differ from the value before them,
    [prev] being the value before the first. *)
Fixpoint changes_from (prev : V) (vs : list V) : Z :=
  match vs with
  | [] => 0
  | v :: rest =>
      ((if decide (prev ≠ v) then 1 else 0) + changes_from v rest)%Z
  end.

End NumChanges.

(** ** Concrete runs *)

Module Examples.

(** A distance that is the Euclidean one between two points of the same
    ordinate; every point below lies on the axis [y = 0]. *)
Definition axis_distance (x1 y1 x2 y2 : Q) : Q :=
  (Qabs (x1 - x2) + Qabs (y1 - y2))%Q.

Definition quiet : step_events :=
  {| getArrivedIDList := []; getEndingTeleportIDList := [];
     getDepartedIDList := []; getAllSubscriptionResults := [] |}.

(** Vehicle "v" departs in the first step, 11 m from the origin, and is
    10 m from it in the second step and 3 m from it afterwards. *)
Definition approaching (n : nat) : step_events :=
  match n with
  | O => {| getArrivedIDList := []; getEndingTeleportIDList := [];
            getDepartedIDList := ["v"];
            getAllSubscriptionResults := [("v", (11 # 1, 0 # 1))] |}
  | S O => {| getArrivedIDList := []; getEndingTeleportIDList := [];
              getDepartedIDList := [];
              getAllSubscriptionResults := [("v", (10 # 1, 0 # 1))] |}
  | _ => {| getArrivedIDList := []; getEndingTeleportIDList := [];
            getDepartedIDList := [];
            getAllSubscriptionResults := [("v", (3 # 1, 0 # 1))] |}
  end.

(** Vehicle "v" departs in the first step, 3 m from the origin; from
    the second step on it is reported arrived (twice) and teleported,
    together with a vehicle "w" that never departed. *)
Definition leaving (n : nat) : step_events :=
  match n with
  | O => {| getArrivedIDList := []; getEndingTeleportIDList := [];
            getDepartedIDList := ["v"];
            getAllSubscriptionResults := [("v", (3 # 1, 0 # 1))] |}
  | _ => {| getArrivedIDList := ["v"; "w"; "v"];
            getEndingTeleportIDList := ["v"];
            getDepartedIDList := [];
            getAllSubscriptionResults := [] |}
  end.

(** Nothing happens in the first step; vehicle "v" departs in the second
    one, 11 m from the origin. *)
Definition departing_late (n : nat) : step_events :=
  match n with
  | O => quiet
  | _ => {| getArrivedIDList := []; getEndingTeleportIDList := [];
            getDepartedIDList := ["v"];
            getAllSubscriptionResults := [("v", (11 # 1, 0 # 1))] |}
  end.

(** The tracker after [n] steps in which no vehicle was seen. *)
Definition idle_tracker (n : nat) : tracker :=
  {| vehicles := ∅; stdout := []; output_csv := [];
     subscribed := []; sim_steps := n |}.

(** A tracker in which "v" is assigned to site "0", after [n] steps. *)
Definition assigned_to_0 (n : nat) : tracker :=
  {| vehicles := {["v" := Some "0"]}; stdout := []; output_csv := [];
     subscribed := ["v"]; sim_steps := n |}.

(** One site, at the origin. *)
Definition one_site : list (string * coord) := [("0", (0 # 1, 0 # 1))].

(** Two sites on the axis: "0" at the origin, "1" at x = 8. *)
Definition two_sites : list (string * coord) :=
  [("0", (0 # 1, 0 # 1)); ("1", (8 # 1, 0 # 1))].

Definition site_rows : list (string * Q * Q) :=
  [("100", 45 # 1, 7 # 1); ("200", 45 # 1, 8 # 1)].

(** A box whose bounds are not whole numbers, a generator that always
    draws 0, a configuration that loads no point of interest. *)
Definition env0 : environment :=
  {| SUMO_HOME := true;
     env_getDistance2D := axis_distance;
     env_simulationStep := approaching;
     getNetBoundary := ((1 # 2, 1 # 2), (3 # 2, 3 # 2));
     config_pois := [];
     read_csv := λ _, Some site_rows;
     readNet := λ _, Some (λ long lat, (long, 0 # 1));
     random_source := λ _, 0%Z |}.

Definition args0 : Args :=
  {| arg_cell_sites := Some 1%Z; arg_time := 2; arg_step := 2;
     arg_distance := 10; arg_input := None;
     arg_output := "output_vehicles_sites.csv";
     arg_sumo_cfg := "sim.sumocfg"; arg_sumo_net := None |}.

Definition args_both : Args :=
  {| arg_cell_sites := Some 5%Z; arg_time := 2; arg_step := 2;
     arg_distance := 10; arg_input := Some "sites.csv";
     arg_output := "output_vehicles_sites.csv";
     arg_sumo_cfg := "sim.sumocfg"; arg_sumo_net := Some "net.net.xml" |}.

Definition args_no_net : Args :=
  {| arg_cell_sites := None; arg_time := 2; arg_step := 2;
     arg_distance := 10; arg_input := Some "sites.csv";
     arg_output := "output_vehicles_sites.csv";
     arg_sumo_cfg := "sim.sumocfg"; arg_sumo_net := None |}.

End Examples.

Module MoreExamples.

Import Examples.

(** Vehicle "v" is reported arrived and, in the same step, reported at
    x = 7, one metre from site "1". *)
Definition returning (n : nat) : step_events :=
  {| getArrivedIDList := ["v"]; getEndingTeleportIDList := [];
     getDepartedIDList := [];
     getAllSubscriptionResults := [("v", (7 # 1, 0 # 1))] |}.

(** A tracker in which "v" is recorded with no site, after [n] steps. *)
Definition unassociated (n : nat) : tracker :=
  {| vehicles := {["v" := None]}; stdout := []; output_csv := [];
     subscribed := ["v"]; sim_steps := n |}.

(** A box whose bounds are whole numbers, and a generator that draws
    3, 10, 17, ... *)
Definition env_integral : environment :=
  {| SUMO_HOME := true;
     env_getDistance2D := axis_distance;
     env_simulationStep := approaching;
     getNetBoundary :=
       ((inject_Z 0, inject_Z 0), (inject_Z 10, inject_Z 10));
     config_pois := [];
     read_csv := λ _, None;
     readNet := λ _, None;
     random_source := λ n, (7 * Z.of_nat n + 3)%Z |}.

(** A box whose upper bound on x is below its lower bound. *)
Definition env_inverted : environment :=
  {| SUMO_HOME := true;
     env_getDistance2D := axis_distance;
     env_simulationStep := approaching;
     getNetBoundary := ((5 # 1, 0 # 1), (1 # 1, 9 # 1));
     config_pois := [];
     read_csv := λ _, None;
     readNet := λ _, None;
     random_source := λ _, 0%Z |}.

(** An association file after [fillna('0')]: vehicle "a" goes from site
    "1" to no site to site "2", vehicle "b" never has a site, vehicle "c"
    stays with site "1". *)
Definition association_rows : list (string * string) :=
  [("a", "1"); ("b", "0"); ("c", "1"); ("a", "1"); ("b", "0");
   ("c", "1"); ("a", "0"); ("a", "2")].

End MoreExamples.

(** * Properties *)

(** ** Comparison of floats *)

Lemma float_lt_finite (x y : Q) :
  float_lt (Finite x) (Finite y) = true ↔ (x < y)%Q.
Proof.
  simpl. rewrite negb_true_iff. split.
  - intros H. apply Qnot_le_lt. intros Hle.
    apply Qle_bool_iff in Hle. congruence.
  - intros H. destruct (Qle_bool y x) eqn:E; [|done].
    apply Qle_bool_iff in E. exfalso. by apply (Qlt_not_le x y).
Qed.

Lemma float_lt_finite_false (x y : Q) :
  float_lt (Finite x) (Finite y) = false ↔ (y <= x)%Q.
Proof.
  simpl. rewrite negb_false_iff. apply Qle_bool_iff.
Qed.

Lemma float_le_finite (x y : Q) :
  float_le (Finite x) (Finite y) = true ↔ (x <= y)%Q.
Proof. simpl. apply Qle_bool_iff. Qed.

Lemma float_le_finite_false (x y : Q) :
  float_le (Finite x) (Finite y) = false ↔ (y < x)%Q.
Proof.
  simpl. split.
  - intros H. apply Qnot_le_lt. intros Hle.
    apply Qle_bool_iff in Hle. congruence.
  - intros H. destruct (Qle_bool x y) eqn:E; [|done].
    apply Qle_bool_iff in E. exfalso. by apply (Qlt_not_le y x).
Qed.

(** ** The resolver *)

Section Resolver.

Variable getDistance2D : Q → Q → Q → Q → Q.

Abbreviation dist_to := (site_distance getDistance2D).
Abbreviation scan := (scan_sites getDistance2D).

(** What the scan returns from a running minimum [acc]: either [acc]
    itself, no site being strictly below it, or the first of the sites
    that are nearest, which is strictly below [acc]. *)
Lemma scan_sites_spec (items : list (string * coord)) (veh : coord)
    (acc : option string * pyfloat) :
  (scan items veh acc = acc
   ∧ ∀ j id c, items !! j = Some (id, c) →
       float_lt (Finite (dist_to c veh)) acc.2 = false)
  ∨ (∃ i id c,
       first_nearest getDistance2D items veh i id c
       ∧ scan items veh acc = (Some id, Finite (dist_to c veh))
       ∧ float_lt (Finite (dist_to c veh)) acc.2 = true).
Proof.
  revert acc. induction items as [|[id0 c0] rest IH]; intros acc.
  - left. split; [done|]. intros j id c H. by destruct j.
  - cbn [scan_sites]. fold (dist_to c0 veh).
    destruct (float_lt (Finite (dist_to c0 veh)) acc.2) eqn:Hlt.
    + right.
      destruct (IH (Some id0, Finite (dist_to c0 veh)))
        as [[Heq Hall]|(i & id & c & (Hi & Hmin & Hfirst) & Heq & Hbelow)].
      * exists 0%nat, id0, c0. repeat split; [| |done|done].
        -- intros [|j] id' c' Hj; simplify_eq/=; [apply Qle_refl|].
           apply float_lt_finite_false. by eapply Hall.
        -- intros j id' c' Hj. lia.
      * apply float_lt_finite in Hbelow.
        exists (S i), id, c. repeat split; [done| | |done|].
        -- intros [|j] id' c' Hj; simplify_eq/=.
           ++ by apply Qlt_le_weak.
           ++ by eapply Hmin.
        -- intros [|j] id' c' Hlt' Hj; simplify_eq/=; [done|].
           eapply Hfirst; [|done]. lia.
        -- destruct acc as [a [q|]]; simpl in *; [|done].
           apply (float_lt_finite (dist_to c veh) q).
           apply (float_lt_finite _ q) in Hlt.
           by eapply Qlt_trans.
    + destruct (IH acc)
        as [[Heq Hall]|(i & id & c & (Hi & Hmin & Hfirst) & Heq & Hbelow)].
      * left. split; [done|].
        intros [|j] id c Hj; simplify_eq/=; [done|]. by eapply Hall.
      * right. exists (S i), id, c.
        assert (dist_to c veh < dist_to c0 veh)%Q as Hc0.
        { destruct acc as [a [q|]]; simpl in Hlt, Hbelow; [|done].
          apply (float_lt_finite _ q) in Hbelow.
          apply (float_lt_finite_false _ q) in Hlt.
          by eapply Qlt_le_trans. }
        repeat split; [done| | |done|done].
        -- intros [|j] id' c' Hj; simplify_eq/=.
           ++ by apply Qlt_le_weak.
           ++ by eapply Hmin.
        -- intros [|j] id' c' Hlt' Hj; simplify_eq/=; [done|].
           eapply Hfirst; [|done]. lia.
Qed.

(** The resolver returns the first nearest site when it is in range and
    [None] when it is not. *)
Lemma new_cell_site_nearest (poi_pos : list (string * coord))
    (veh : coord) (max_dist : Q) :
  nearest_in_range getDistance2D poi_pos veh max_dist
    (new_cell_site getDistance2D poi_pos veh max_dist).
Proof.
  unfold nearest_in_range, new_cell_site.
  destruct poi_pos as [|[id0 c0] rest]; [done|].
  destruct (scan_sites_spec ((id0, c0) :: rest) veh (None, Inf))
    as [[_ Hall]|(i & id & c & Hnear & Heq & _)].
  - specialize (Hall 0%nat id0 c0 eq_refl). done.
  - exists i, id, c. split; [done|]. rewrite Heq. simpl. split.
    + intros Hle. apply Qle_bool_iff in Hle. by rewrite Hle.
    + intros Hlt. apply (float_le_finite_false _ max_dist) in Hlt.
      simpl in Hlt. by rewrite Hlt.
Qed.

Lemma poi_lookup_elem (poi_pos : list (string * coord)) (i : nat)
    (id : string) (c : coord) :
  poi_pos !! i = Some (id, c) → is_Some (poi_lookup poi_pos id).
Proof.
  revert i. induction poi_pos as [|[id0 c0] rest IH]; intros i Hi.
  - by destruct i.
  - simpl. destruct (String.eqb id0 id) eqn:E; [by eexists|].
    destruct i as [|i]; simplify_eq/=.
    + by rewrite String.eqb_refl in E.
    + by eapply IH.
Qed.

(** A site id the resolver returns is a key of the registry. *)
Lemma new_cell_site_in_registry (poi_pos : list (string * coord))
    (veh : coord) (max_dist : Q) (id : string) :
  new_cell_site getDistance2D poi_pos veh max_dist = Some id →
  is_Some (poi_lookup poi_pos id).
Proof.
  unfold new_cell_site.
  destruct (scan_sites_spec poi_pos veh (None, Inf))
    as [[Heq _]|(i & id' & c & (Hi & _) & Heq & _)]; rewrite Heq; simpl.
  - done.
  - destruct (Qle_bool _ _); [|done]. intros [= <-].
    by eapply poi_lookup_elem.
Qed.

End Resolver.

(** ** Removal *)

Lemma remove_vehicle_other (msg : string)
    (st : gmap string (option string) * list string) (veh_id key : string) :
  key ≠ veh_id → (remove_vehicle msg st veh_id).1 !! key = st.1 !! key.
Proof.
  intros Hne. unfold remove_vehicle.
  destruct (st.1 !! veh_id); simpl; [|done]. by rewrite lookup_delete_ne.
Qed.

Lemma remove_vehicle_gone (msg : string)
    (st : gmap string (option string) * list string) (veh_id : string) :
  (remove_vehicle msg st veh_id).1 !! veh_id = None.
Proof.
  unfold remove_vehicle.
  destruct (st.1 !! veh_id) eqn:E; simpl; [|done]. apply lookup_delete_eq.
Qed.

(** Removal only removes: an entry found afterwards was there before. *)
Lemma remove_vehicle_sub (msg : string)
    (st : gmap string (option string) * list string) (veh_id key : string)
    (v : option string) :
  (remove_vehicle msg st veh_id).1 !! key = Some v → st.1 !! key = Some v.
Proof.
  destruct (decide (key = veh_id)) as [->|Hne].
  - by rewrite remove_vehicle_gone.
  - by rewrite remove_vehicle_other.
Qed.

Lemma remove_all_other (msg : string) (ids : list string)
    (st : gmap string (option string) * list string) (key : string) :
  key ∉ ids → (remove_all msg ids st).1 !! key = st.1 !! key.
Proof.
  revert st. induction ids as [|veh_id rest IH]; intros st Hnot; [done|].
  apply not_elem_of_cons in Hnot as [Hne Hrest]. simpl.
  rewrite IH; [|done]. by apply remove_vehicle_other.
Qed.

Lemma remove_all_sub (msg : string) (ids : list string)
    (st : gmap string (option string) * list string) (key : string)
    (v : option string) :
  (remove_all msg ids st).1 !! key = Some v → st.1 !! key = Some v.
Proof.
  revert st. induction ids as [|veh_id rest IH]; intros st; [done|].
  simpl. intros H. apply IH in H. by eapply remove_vehicle_sub.
Qed.

Lemma remove_all_none (msg : string) (ids : list string)
    (st : gmap string (option string) * list string) (key : string) :
  st.1 !! key = None → (remove_all msg ids st).1 !! key = None.
Proof.
  intros Hnone.
  destruct ((remove_all msg ids st).1 !! key) as [v|] eqn:E; [|done].
  apply remove_all_sub in E. congruence.
Qed.

Lemma remove_all_closed (poi_pos : list (string * coord)) (msg : string)
    (ids : list string) (st : gmap string (option string) * list string) :
  registry_closed poi_pos st.1 →
  registry_closed poi_pos (remove_all msg ids st).1.
Proof.
  intros Hcl key s H. apply remove_all_sub in H. by eapply Hcl.
Qed.

(** ** The loop over the reported positions *)

Section LoopFacts.

Variable getDistance2D : Q → Q → Q → Q → Q.
Variable simulationStep : nat → step_events.

Abbreviation resolve := (new_cell_site getDistance2D).
Abbreviation assign := (assign_sites getDistance2D).
Abbreviation iteration := (loop_iteration getDistance2D simulationStep).

Lemma insert_resolved_closed (poi_pos : list (string * coord))
    (vehicles : gmap string (option string)) (key : string)
    (veh : coord) (max_dist : Q) :
  registry_closed poi_pos vehicles →
  registry_closed poi_pos (<[key := resolve poi_pos veh max_dist]> vehicles).
Proof.
  intros Hcl k s. rewrite lookup_insert. case_decide as Hk.
  - intros [= H]. by eapply new_cell_site_in_registry.
  - apply Hcl.
Qed.

(** With every recorded site in the registry, the loop over the
    positions raises nothing and keeps every recorded site in it. *)
Lemma assign_sites_closed (poi_pos : list (string * coord)) (check : bool)
    (distance : Z) (items : list (string * coord))
    (vehicles : gmap string (option string)) :
  registry_closed poi_pos vehicles →
  (assign poi_pos check distance items vehicles).2 = None
  ∧ registry_closed poi_pos
      (assign poi_pos check distance items vehicles).1.
Proof.
  revert vehicles.
  induction items as [|[key pos] rest IH]; intros vehicles Hcl; [done|].
  pose proof (insert_resolved_closed poi_pos vehicles key pos
                (inject_Z distance) Hcl) as Hins.
  cbn [assign_sites].
  destruct (vehicles !! key) as [[s|]|] eqn:Hkey; simpl;
    [|by apply IH..].
  destruct (truthy_str s); [|by apply IH].
  destruct check; [|by apply IH].
  destruct (Hcl key s Hkey) as [c ->].
  destruct (check_connection _ _ _ _); by apply IH.
Qed.

(** The loop touches the entries of the reported vehicles only. *)
Lemma assign_sites_other (poi_pos : list (string * coord)) (check : bool)
    (distance : Z) (items : list (string * coord))
    (vehicles : gmap string (option string)) (key : string) :
  key ∉ items.*1 →
  (assign poi_pos check distance items vehicles).1 !! key
  = vehicles !! key.
Proof.
  revert vehicles.
  induction items as [|[k pos] rest IH]; intros vehicles Hnot; [done|].
  rewrite fmap_cons in Hnot.
  apply not_elem_of_cons in Hnot as [Hne Hrest]. simpl in Hne.
  assert (∀ v : option string,
    (assign poi_pos check distance rest (<[k := v]> vehicles)).1 !! key
    = vehicles !! key) as Hres.
  { intros v. rewrite IH; [|done]. by rewrite lookup_insert_ne. }
  cbn [assign_sites].
  destruct (vehicles !! k) as [[s|]|]; simpl; [|by apply Hres..].
  destruct (truthy_str s); [|by apply Hres].
  destruct check; [|by apply IH].
  destruct (poi_lookup poi_pos s); [|done].
  destruct (check_connection _ _ _ _); [by apply Hres|by apply IH].
Qed.

(** What the loop leaves for a vehicle reported once is what the loop
    over that one report leaves for it. *)
Lemma assign_sites_once (poi_pos : list (string * coord)) (check : bool)
    (distance : Z) (items : list (string * coord))
    (vehicles : gmap string (option string)) (key : string) (pos : coord) :
  registry_closed poi_pos vehicles →
  NoDup items.*1 → (key, pos) ∈ items →
  (assign poi_pos check distance items vehicles).1 !! key
  = (assign poi_pos check distance [(key, pos)] vehicles).1 !! key.
Proof.
  revert vehicles.
  induction items as [|[k p] rest IH]; intros vehicles Hcl Hnd Hin.
  - by apply elem_of_nil in Hin.
  - rewrite fmap_cons in Hnd. apply NoDup_cons in Hnd as [Hk Hnd].
    simpl in Hk.
    pose proof (insert_resolved_closed poi_pos vehicles k p
                  (inject_Z distance) Hcl) as Hins.
    apply elem_of_cons in Hin as [[= <- <-]|Hin].
    + cbn [assign_sites].
      destruct (vehicles !! key) as [[s|]|] eqn:Hkey; simpl;
        [|by rewrite assign_sites_other..].
      destruct (truthy_str s); [|by rewrite assign_sites_other].
      destruct check; [|by rewrite assign_sites_other].
      destruct (Hcl key s Hkey) as [c ->].
      destruct (check_connection _ _ _ _); by rewrite assign_sites_other.
    + assert (key ≠ k) as Hne.
      { intros ->. apply Hk. apply list_elem_of_fmap.
        by exists (k, pos). }
      assert (∀ m : gmap string (option string),
        m !! key = vehicles !! key →
        (assign poi_pos check distance [(key, pos)] m).1 !! key
        = (assign poi_pos check distance [(key, pos)] vehicles).1 !! key)
        as Hsame.
      { intros m Hm. cbn [assign_sites]. rewrite Hm.
        destruct (vehicles !! key) as [[s|]|] eqn:Hv; simpl;
          rewrite ?lookup_insert_eq; try done.
        destruct (truthy_str s); simpl;
          [|by rewrite !lookup_insert_eq].
        destruct check; simpl; [|congruence].
        destruct (poi_lookup poi_pos s); simpl; [|congruence].
        destruct (check_connection _ _ _ _); simpl;
          [by rewrite !lookup_insert_eq|congruence]. }
      assert (
        (assign poi_pos check distance rest
           (<[k := resolve poi_pos p (inject_Z distance)]> vehicles)).1
          !! key
        = (assign poi_pos check distance [(key, pos)] vehicles).1 !! key)
        as Hres.
      { rewrite IH; [|done..].
        apply Hsame. by rewrite lookup_insert_ne. }
      cbn [assign_sites].
      destruct (vehicles !! k) as [[s|]|] eqn:Hkv; simpl;
        [|by apply Hres..].
      destruct (truthy_str s); [|by apply Hres].
      destruct check; [|by apply IH].
      destruct (Hcl k s Hkv) as [c ->].
      destruct (check_connection _ _ _ _); [by apply Hres|by apply IH].
Qed.

End LoopFacts.

Lemma truthy_str_nonempty (s : string) : s ≠ "" → truthy_str s = true.
Proof.
  intros Hne. unfold truthy_str. apply negb_true_iff.
  by apply String.eqb_neq.
Qed.

Lemma registry_closed_empty (poi_pos : list (string * coord)) :
  registry_closed poi_pos ∅.
Proof. intros key s H. by rewrite lookup_empty in H. Qed.

(** ** One iteration and the whole loop *)

Section Iteration.

Variable getDistance2D : Q → Q → Q → Q → Q.
Variable simulationStep : nat → step_events.

Abbreviation resolve := (new_cell_site getDistance2D).
Abbreviation assign := (assign_sites getDistance2D).
Abbreviation iteration := (loop_iteration getDistance2D simulationStep).
Abbreviation events st := (simulationStep (sim_steps st)).

Abbreviation removed st := (after_removals (events st) st).

Lemma after_removals_closed (poi_pos : list (string * coord))
    (st : tracker) :
  registry_closed poi_pos (vehicles st) →
  registry_closed poi_pos (removed st).1.
Proof.
  intros Hcl. unfold after_removals. by do 2 apply remove_all_closed.
Qed.

(** An iteration with a non-zero interval, from a state whose recorded
    sites are all in the registry, completes, and leaves [vehicles] as
    the loop over the positions leaves it after the removals. *)
Lemma loop_iteration_ok (poi_pos : list (string * coord))
    (interval distance step : Z) (st : tracker) :
  interval ≠ 0%Z → registry_closed poi_pos (vehicles st) →
  ∃ st', iteration poi_pos interval distance step st = (st', None)
    ∧ vehicles st'
      = (assign poi_pos (step `mod` interval =? 0)%Z distance
           (getAllSubscriptionResults (events st))
           (removed st).1).1
    ∧ stdout st' = (removed st).2
    ∧ sim_steps st' = S (sim_steps st)
    ∧ registry_closed poi_pos (vehicles st').
Proof.
  intros Hint Hcl. unfold loop_iteration.
  apply Z.eqb_neq in Hint. rewrite Hint.
  fold (after_removals (events st) st).
  destruct (assign_sites_closed getDistance2D poi_pos
              (step `mod` interval =? 0)%Z distance
              (getAllSubscriptionResults (events st))
              (removed st).1
              (after_removals_closed poi_pos st Hcl)) as [Hnone Hcl'].
  rewrite Hnone. eexists. split; [done|]. by simpl.
Qed.

Lemma loop_iteration_zero (poi_pos : list (string * coord))
    (distance step : Z) (st : tracker) :
  iteration poi_pos 0 distance step st = (st, Some ZeroDivisionError).
Proof. done. Qed.

(** The loop never raises [KeyError]: it completes, or stops on the
    division by a zero interval, and every recorded site stays in the
    registry. *)
Lemma run_loop_closed (poi_pos : list (string * coord))
    (interval distance : Z) (steps : list Z) (st : tracker) :
  registry_closed poi_pos (vehicles st) →
  registry_closed poi_pos
    (vehicles (run_loop getDistance2D simulationStep poi_pos interval
                 distance steps st).1)
  ∧ ((run_loop getDistance2D simulationStep poi_pos interval distance
        steps st).2 = None
     ∨ (run_loop getDistance2D simulationStep poi_pos interval distance
          steps st).2 = Some ZeroDivisionError ∧ interval = 0%Z).
Proof.
  revert st. induction steps as [|step rest IH]; intros st Hcl.
  - split; [done|by left].
  - cbn [run_loop]. destruct (decide (interval = 0%Z)) as [->|Hint].
    + rewrite loop_iteration_zero. split; [done|by right].
    + destruct (loop_iteration_ok poi_pos interval distance step st
                  Hint Hcl) as (st' & -> & _ & _ & _ & Hcl').
      by apply IH.
Qed.

(** With a non-zero interval the loop runs every one of its steps. *)
Lemma run_loop_completes (poi_pos : list (string * coord))
    (interval distance : Z) (steps : list Z) (st : tracker) :
  interval ≠ 0%Z → registry_closed poi_pos (vehicles st) →
  ∃ st', run_loop getDistance2D simulationStep poi_pos interval distance
           steps st = (st', None)
    ∧ sim_steps st' = (sim_steps st + length steps)%nat.
Proof.
  intros Hint. revert st.
  induction steps as [|step rest IH]; intros st Hcl.
  - exists st. split; [done|]. simpl. lia.
  - cbn [run_loop].
    destruct (loop_iteration_ok poi_pos interval distance step st
                Hint Hcl) as (st' & -> & _ & _ & Hsteps & Hcl').
    destruct (IH st' Hcl') as (st'' & -> & Hlen).
    exists st''. split; [done|]. rewrite Hlen, Hsteps. simpl. lia.
Qed.

(** An assigned vehicle keeps its site in an iteration that is not a
    check step, when it is not reported removed. *)
Lemma assigned_kept_off_check_step (poi_pos : list (string * coord))
    (interval distance step : Z) (st : tracker) (key s : string) :
  interval ≠ 0%Z → (step `mod` interval ≠ 0)%Z →
  registry_closed poi_pos (vehicles st) →
  vehicles st !! key = Some (Some s) → s ≠ "" →
  key ∉ getArrivedIDList (events st) →
  key ∉ getEndingTeleportIDList (events st) →
  NoDup (getAllSubscriptionResults (events st)).*1 →
  ∃ st', iteration poi_pos interval distance step st = (st', None)
    ∧ vehicles st' !! key = Some (Some s).
Proof.
  intros Hint Hoff Hcl Hkey Hs Harr Htel Hnd.
  destruct (loop_iteration_ok poi_pos interval distance step st Hint Hcl)
    as (st' & Hit & Hveh & _).
  exists st'. split; [done|]. rewrite Hveh.
  apply Z.eqb_neq in Hoff. rewrite Hoff.
  assert ((removed st).1 !! key = Some (Some s)) as Hafter.
  { unfold after_removals. by rewrite !remove_all_other. }
  destruct (decide (key ∈ (getAllSubscriptionResults (events st)).*1))
    as [Hin|Hnot].
  - apply list_elem_of_fmap in Hin as [[k pos] [Hk Hin]].
    simpl in Hk. subst k.
    rewrite (assign_sites_once _ _ _ _ _ _ _ pos);
      [|by apply after_removals_closed|done..].
    cbn [assign_sites]. rewrite Hafter. simpl.
    by rewrite truthy_str_nonempty.
  - by rewrite assign_sites_other.
Qed.

End Iteration.

(** ** The resolver and the transitions of one iteration *)

Section LoopClaims.

Variable getDistance2D : Q → Q → Q → Q → Q.
Variable simulationStep : nat → step_events.

Abbreviation dist_to := (site_distance getDistance2D).
Abbreviation resolve := (new_cell_site getDistance2D).
Abbreviation iteration := (loop_iteration getDistance2D simulationStep).
Abbreviation events st := (simulationStep (sim_steps st)).

(** C2.  On a registry that is not empty, [new_cell_site] finds the
    first, in iteration order, of the sites at the least distance from
    the position: it returns its id when that distance is at most
    [max_dist], and [None] when that distance exceeds [max_dist]. *)
Theorem new_cell_site_first_nearest (poi_pos : list (string * coord))
    (veh_coord : coord) (max_dist : Q) :
  poi_pos ≠ [] →
  ∃ i id c,
    first_nearest getDistance2D poi_pos veh_coord i id c
    ∧ ((dist_to c veh_coord <= max_dist)%Q →
         resolve poi_pos veh_coord max_dist = Some id)
    ∧ ((max_dist < dist_to c veh_coord)%Q →
         resolve poi_pos veh_coord max_dist = None).
Proof.
  intros Hne.
  pose proof (new_cell_site_nearest getDistance2D poi_pos veh_coord
                max_dist) as H.
  unfold nearest_in_range in H. by destruct poi_pos.
Qed.

(** C3.  On a check step, a vehicle assigned to site [s], reported with
    a position and not reported removed, keeps [s] when its distance to
    the position of [s] is at most the maximum distance; when that
    distance exceeds the maximum, its record becomes what the resolver
    returns on the whole registry: the first nearest site if that one
    is in range, no site otherwise. *)
Theorem assigned_vehicle_on_check_step (poi_pos : list (string * coord))
    (interval distance step : Z) (st : tracker) (key s : string)
    (pos : coord) :
  interval ≠ 0%Z → (step `mod` interval = 0)%Z →
  registry_closed poi_pos (vehicles st) →
  vehicles st !! key = Some (Some s) → s ≠ "" →
  key ∉ getArrivedIDList (events st) →
  key ∉ getEndingTeleportIDList (events st) →
  NoDup (getAllSubscriptionResults (events st)).*1 →
  (key, pos) ∈ getAllSubscriptionResults (events st) →
  ∃ st' c,
    iteration poi_pos interval distance step st = (st', None)
    ∧ poi_lookup poi_pos s = Some c
    ∧ ((dist_to c pos <= inject_Z distance)%Q →
         vehicles st' !! key = Some (Some s))
    ∧ ((inject_Z distance < dist_to c pos)%Q →
         ∃ r, vehicles st' !! key = Some r
           ∧ r = resolve poi_pos pos (inject_Z distance)
           ∧ nearest_in_range getDistance2D poi_pos pos
               (inject_Z distance) r).
Proof.
  intros Hint Hcheck Hcl Hkey Hs Harr Htel Hnd Hin.
  destruct (loop_iteration_ok getDistance2D simulationStep poi_pos
              interval distance step st Hint Hcl)
    as (st' & Hit & Hveh & _).
  destruct (Hcl key s Hkey) as [c Hc].
  exists st', c. split; [done|]. split; [done|].
  assert ((after_removals (events st) st).1 !! key = Some (Some s))
    as Hafter.
  { unfold after_removals. by rewrite !remove_all_other. }
  rewrite Hveh, Hcheck. change (0 =? 0)%Z with true.
  rewrite (assign_sites_once _ _ _ _ _ _ _ pos);
    [|by apply after_removals_closed|done..].
  cbn [assign_sites]. rewrite Hafter. simpl.
  rewrite truthy_str_nonempty, Hc by done.
  unfold check_connection. fold (dist_to c pos). split.
  - intros Hle. apply float_lt_finite_false in Hle. by rewrite Hle.
  - intros Hlt. apply float_lt_finite in Hlt. rewrite Hlt. simpl.
    rewrite lookup_insert_eq. eexists. split; [done|]. split; [done|].
    apply new_cell_site_nearest.
Qed.

(** C4.  A vehicle reported with a position while it has no record has
    one when the iteration ends, whether the step is a check step or
    not: the site the resolver returns for the reported position, or no
    site. *)
Theorem new_vehicle_resolved_same_step (poi_pos : list (string * coord))
    (interval distance step : Z) (st : tracker) (key : string)
    (pos : coord) :
  interval ≠ 0%Z →
  registry_closed poi_pos (vehicles st) →
  vehicles st !! key = None →
  NoDup (getAllSubscriptionResults (events st)).*1 →
  (key, pos) ∈ getAllSubscriptionResults (events st) →
  ∃ st' r,
    iteration poi_pos interval distance step st = (st', None)
    ∧ vehicles st' !! key = Some r
    ∧ r = resolve poi_pos pos (inject_Z distance)
    ∧ nearest_in_range getDistance2D poi_pos pos (inject_Z distance) r.
Proof.
  intros Hint Hcl Hkey Hnd Hin.
  destruct (loop_iteration_ok getDistance2D simulationStep poi_pos
              interval distance step st Hint Hcl)
    as (st' & Hit & Hveh & _).
  exists st'. eexists. split; [done|].
  assert ((after_removals (events st) st).1 !! key = None) as Hafter.
  { unfold after_removals. by do 2 apply remove_all_none. }
  rewrite Hveh.
  rewrite (assign_sites_once _ _ _ _ _ _ _ pos);
    [|by apply after_removals_closed|done..].
  cbn [assign_sites]. rewrite Hafter. simpl. rewrite lookup_insert_eq.
  split; [done|]. split; [done|]. apply new_cell_site_nearest.
Qed.

(** C5.  Removing a vehicle id never raises.  Removing an id that has
    no record leaves [vehicles] as it is and prints one line; so does a
    second removal of the same id; a removal leaves the entry of every
    other id as it is.  An iteration in which the simulation reports
    any ids at all as arrived or teleported completes, and the entries
    of the ids not reported are, after the removals, what they were. *)
Theorem removal_never_raises (poi_pos : list (string * coord))
    (interval distance step : Z) (st : tracker) :
  interval ≠ 0%Z →
  registry_closed poi_pos (vehicles st) →
  (∀ msg vs veh_id,
     (vs.1 !! veh_id = None →
        remove_vehicle msg vs veh_id = (vs.1, vs.2 ++ [msg]))
     ∧ remove_vehicle msg (remove_vehicle msg vs veh_id) veh_id
       = ((remove_vehicle msg vs veh_id).1,
          (remove_vehicle msg vs veh_id).2 ++ [msg])
     ∧ (∀ key, key ≠ veh_id →
          (remove_vehicle msg vs veh_id).1 !! key = vs.1 !! key))
  ∧ ∃ st',
      iteration poi_pos interval distance step st = (st', None)
      ∧ stdout st' = (after_removals (events st) st).2
      ∧ ∀ key, key ∉ getArrivedIDList (events st) →
          key ∉ getEndingTeleportIDList (events st) →
          (after_removals (events st) st).1 !! key = vehicles st !! key.
Proof.
  intros Hint Hcl. split.
  - intros msg vs veh_id. split; [|split].
    + intros Hnone. unfold remove_vehicle. by rewrite Hnone.
    + pose proof (remove_vehicle_gone msg vs veh_id) as Hgone.
      unfold remove_vehicle at 1. by rewrite Hgone.
    + intros key Hne. by apply remove_vehicle_other.
  - destruct (loop_iteration_ok getDistance2D simulationStep poi_pos
                interval distance step st Hint Hcl)
      as (st' & Hit & _ & Hout & _).
    exists st'. split; [done|]. split; [done|].
    intros key Harr Htel. unfold after_removals.
    by rewrite !remove_all_other.
Qed.

End LoopClaims.

(** ** Start-up *)

Lemma int_of_float_mono (f g : Q) :
  (f <= g)%Q → (int_of_float f ≤ int_of_float g)%Z.
Proof.
  unfold Qle, int_of_float. intros Hle.
  rewrite <- (Z.quot_mul_cancel_r (Qnum f) (Z.pos (Qden f))
                (Z.pos (Qden g))) by done.
  rewrite <- (Z.quot_mul_cancel_r (Qnum g) (Z.pos (Qden g))
                (Z.pos (Qden f))) by done.
  rewrite (Z.mul_comm (Z.pos (Qden g)) (Z.pos (Qden f))).
  apply Z.quot_le_mono; [lia|done].
Qed.

Lemma randint_range (a b raw : Z) :
  (a ≤ b)%Z → ∃ x, randint a b raw = Ok x ∧ (a ≤ x ≤ b)%Z.
Proof.
  intros Hab. unfold randint.
  destruct (b <? a)%Z eqn:E; [apply Z.ltb_lt in E; lia|].
  eexists. split; [done|].
  pose proof (Z.mod_pos_bound raw (b - a + 1)). lia.
Qed.

Lemma poi_lookup_snoc (pois : list (string * coord)) (id id' : string)
    (c : coord) :
  poi_lookup pois id' = None → id ≠ id' →
  poi_lookup (pois ++ [(id, c)]) id' = None.
Proof.
  intros Hnone Hne. induction pois as [|[k p] rest IH]; simpl in *.
  - apply String.eqb_neq in Hne. by rewrite Hne.
  - destruct (String.eqb k id'); [done|]. by apply IH.
Qed.

(** With ordered bounds and ids that are distinct and not taken, the
    generation loop raises nothing, adds one site per id and writes one
    row per id, each within the bounds. *)
Lemma generate_sites_rows (random_source : nat → Z)
    (x_min x_max y_min y_max : Z) (ids : list Z) (s : setup_state) :
  (x_min ≤ x_max)%Z → (y_min ≤ y_max)%Z →
  NoDup ids →
  (∀ i, i ∈ ids → poi_lookup (pois s) (pretty i) = None) →
  ∃ rows,
    generate_sites random_source x_min x_max y_min y_max ids s
    = ({| pois := pois s ++ site_entries rows;
          sites_csv := sites_csv s ++ rows;
          draws := draws s + 2 * length ids |}, None)
    ∧ rows.*1.*1 = pretty <$> ids
    ∧ Forall (λ r : string * Z * Z,
                (x_min ≤ r.1.2 ≤ x_max)%Z ∧ (y_min ≤ r.2 ≤ y_max)%Z) rows.
Proof.
  intros Hx Hy. revert s.
  induction ids as [|i rest IH]; intros s Hnd Hfresh.
  - exists []. simpl. rewrite !app_nil_r, Nat.add_0_r.
    by destruct s.
  - apply NoDup_cons in Hnd as [Hi Hnd]. cbn [generate_sites].
    destruct (randint_range x_min x_max (random_source (draws s)) Hx)
      as (x & -> & Hxr).
    destruct (randint_range y_min y_max (random_source (S (draws s))) Hy)
      as (y & -> & Hyr).
    assert (poi_add (pretty i) (inject_Z x, inject_Z y) (pois s)
            = pois s ++ [(pretty i, (inject_Z x, inject_Z y))]) as Hadd.
    { unfold poi_add. rewrite Hfresh; [done|]. apply elem_of_cons. by left. }
    rewrite Hadd.
    edestruct (IH {| pois := pois s ++ [(pretty i, (inject_Z x, inject_Z y))];
                     sites_csv := sites_csv s ++ [(pretty i, x, y)];
                     draws := S (S (draws s)) |}) as (rows & -> & Hids & Hall).
    { done. }
    { intros j Hj. simpl. apply poi_lookup_snoc.
      - apply Hfresh. apply elem_of_cons. by right.
      - intros Heq. apply (inj pretty) in Heq. by subst. }
    exists ((pretty i, x, y) :: rows). split; [|split].
    + simpl. rewrite <- !app_assoc. simpl. do 2 f_equal. lia.
    + rewrite !fmap_cons. simpl. by rewrite Hids.
    + by constructor.
Qed.

(** The generation loop raises nothing but [ValueError]. *)
Lemma generate_sites_exn (random_source : nat → Z)
    (x_min x_max y_min y_max : Z) (ids : list Z) (s : setup_state)
    (e : exn) :
  (generate_sites random_source x_min x_max y_min y_max ids s).2 = Some e →
  e = ValueError.
Proof.
  revert s. induction ids as [|i rest IH]; intros s; [done|].
  cbn [generate_sites]. unfold randint.
  destruct (x_max <? x_min)%Z; [by intros [= <-]|].
  destruct (y_max <? y_min)%Z; [by intros [= <-]|].
  apply IH.
Qed.

(** Start-up never raises [KeyError]. *)
Lemma build_sites_no_key_error (env : environment) (args : Args)
    (key : string) :
  (build_sites env args).2 ≠ Some (KeyError key).
Proof.
  unfold build_sites.
  destruct (truthy_input (arg_input args)).
  - destruct (arg_sumo_net args); [|done].
    destruct (read_csv env _); [|done]. by destruct (readNet env _).
  - destruct (truthy_count (arg_cell_sites args)); [|done].
    destruct (getNetBoundary env) as [lo hi]. intros H.
    by apply generate_sites_exn in H.
Qed.

(** C8.  For a count N of at least 1 and no site file, on a bounding box
    whose bounds are ordered and a configuration that holds no point of
    interest named by a number below N, start-up adds exactly N sites,
    named 0 to N-1, to the registry and writes exactly N rows, the same
    sites, to [output_sites_pos.csv]; the coordinates of each are whole
    numbers between the bounds of the box once these went through [int]
    (truncation toward zero). *)
Theorem synthetic_sites_in_truncated_box (env : environment) (args : Args)
    (N : Z) :
  truthy_input (arg_input args) = false →
  arg_cell_sites args = Some N → (1 ≤ N)%Z →
  ((getNetBoundary env).1.1 <= (getNetBoundary env).2.1)%Q →
  ((getNetBoundary env).1.2 <= (getNetBoundary env).2.2)%Q →
  (∀ i, (0 ≤ i < N)%Z → poi_lookup (config_pois env) (pretty i) = None) →
  ∃ rows,
    build_sites env args
    = ({| pois := config_pois env ++ site_entries rows;
          sites_csv := rows;
          draws := 2 * Z.to_nat N |}, None)
    ∧ length rows = Z.to_nat N
    ∧ rows.*1.*1 = pretty <$> seqZ 0 N
    ∧ Forall (λ r : string * Z * Z,
                in_truncated_box (getNetBoundary env) r.1.2 r.2) rows.
Proof.
  intros Hinput Hcount HN Hx Hy Hfresh. unfold build_sites.
  rewrite Hinput, Hcount. simpl.
  destruct (N =? 0)%Z eqn:E; [apply Z.eqb_eq in E; lia|]. simpl.
  unfold in_truncated_box.
  destruct (getNetBoundary env) as [[x0 y0] [x1 y1]]. simpl in *.
  destruct (generate_sites_rows (random_source env)
              (int_of_float x0) (int_of_float x1)
              (int_of_float y0) (int_of_float y1) (seqZ 0 N)
              {| pois := config_pois env; sites_csv := []; draws := 0 |})
    as (rows & -> & Hids & Hall).
  - by apply int_of_float_mono.
  - by apply int_of_float_mono.
  - apply NoDup_seqZ.
  - intros i Hi. apply elem_of_seqZ in Hi. apply Hfresh. lia.
  - exists rows. simpl. rewrite length_seqZ. split; [done|].
    split; [|done].
    rewrite <- (length_fmap fst), <- (length_fmap fst rows.*1), Hids.
    by rewrite length_fmap, length_seqZ.
Qed.

(** C7.  With SUMO_HOME set, [main] stops with [TypeError] before the
    first iteration, nothing added to the registry and nothing written,
    when neither a site file nor a count is given, and when a site file
    is given without a net file.  When a site file is given the count is
    ignored: the run is the one without any count. *)
Theorem site_source_errors (env : environment) (args : Args) :
  SUMO_HOME env = true →
  (truthy_input (arg_input args) = false →
   truthy_count (arg_cell_sites args) = false →
   main env args
   = ({| pois := config_pois env; sites_csv := []; draws := 0 |},
      initial_tracker, Some (TypeError no_source_msg)))
  ∧ (truthy_input (arg_input args) = true →
     arg_sumo_net args = None →
     main env args
     = ({| pois := config_pois env; sites_csv := []; draws := 0 |},
        initial_tracker, Some (TypeError no_net_msg)))
  ∧ (truthy_input (arg_input args) = true →
     ∀ n, main env (with_cell_sites n args)
          = main env (with_cell_sites None args)).
Proof.
  intros Hhome. unfold main, build_sites. rewrite Hhome.
  split; [|split].
  - by intros -> ->.
  - by intros -> ->.
  - intros Hin n. simpl. by rewrite Hin.
Qed.

(** C10.  With SUMO_HOME set and no site file, a count of 0 makes [main]
    stop with the [TypeError] of the missing site source, before the
    first iteration and with nothing added to the registry: the run is
    the one without any count. *)
Theorem zero_count_is_no_source (env : environment) (args : Args) :
  SUMO_HOME env = true →
  truthy_input (arg_input args) = false →
  arg_cell_sites args = Some 0%Z →
  main env args
  = ({| pois := config_pois env; sites_csv := []; draws := 0 |},
     initial_tracker, Some (TypeError no_source_msg))
  ∧ main env args = main env (with_cell_sites None args).
Proof.
  intros Hhome Hin Hcount. unfold main, build_sites. simpl.
  by rewrite Hhome, Hin, Hcount.
Qed.

(** C6.  A check interval that is not positive is not rejected at
    start-up, which does not depend on the interval.  When start-up
    succeeds, an interval of 0 stops the run with [ZeroDivisionError] in
    the first iteration of the loop (if the loop has one), before the
    simulation is advanced; a negative interval raises nothing and the
    loop runs every one of its steps. *)
Theorem nonpositive_interval_not_rejected (env : environment) (args : Args)
    (s : setup_state) :
  SUMO_HOME env = true → (arg_step args ≤ 0)%Z →
  build_sites env args = (s, None) →
  (∀ k, build_sites env (with_step k args) = build_sites env args)
  ∧ (arg_step args = 0%Z → (0 ≤ arg_time args)%Z →
     main env args = (s, initial_tracker, Some ZeroDivisionError)
     ∧ loop_iteration (env_getDistance2D env) (env_simulationStep env)
         (pois s) (arg_step args) (arg_distance args) 0 initial_tracker
       = (initial_tracker, Some ZeroDivisionError))
  ∧ ((arg_step args < 0)%Z →
     ∃ tr, main env args = (s, tr, None)
       ∧ sim_steps tr = Z.to_nat (arg_time args + 1)).
Proof.
  intros Hhome Hle Hsetup. split; [done|]. unfold main.
  rewrite Hhome, Hsetup. split.
  - intros -> Htime. split; [|done]. unfold loop_steps.
    by rewrite seqZ_cons by lia.
  - intros Hneg.
    destruct (run_loop_completes (env_getDistance2D env)
                (env_simulationStep env) (pois s) (arg_step args)
                (arg_distance args) (loop_steps args) initial_tracker)
      as (tr & Hrun & Hlen).
    + lia.
    + apply registry_closed_empty.
    + exists tr. rewrite Hrun. split; [done|].
      rewrite Hlen. unfold loop_steps. by rewrite length_seqZ.
Qed.

(** C9.  From the empty tracker, after any number of iterations, every
    site id recorded for a vehicle is a key of the registry, and the loop
    did not stop on a [KeyError]; so it is at the end of [main], for the
    registry start-up built. *)
Theorem recorded_sites_in_registry :
  (∀ (getDistance2D : Q → Q → Q → Q → Q) (simulationStep : nat → step_events)
     (poi_pos : list (string * coord)) (interval distance : Z)
     (steps : list Z),
     let r := run_loop getDistance2D simulationStep poi_pos interval
                distance steps initial_tracker in
     registry_closed poi_pos (vehicles r.1)
     ∧ ∀ key, r.2 ≠ Some (KeyError key))
  ∧ (∀ (env : environment) (args : Args),
       let r := main env args in
       registry_closed (pois r.1.1) (vehicles r.1.2)
       ∧ ∀ key, r.2 ≠ Some (KeyError key)).
Proof.
  assert (∀ getDistance2D simulationStep poi_pos interval distance steps,
    let r := run_loop getDistance2D simulationStep poi_pos interval
               distance steps initial_tracker in
    registry_closed poi_pos (vehicles r.1)
    ∧ ∀ key, r.2 ≠ Some (KeyError key)) as Hloop.
  { intros getDistance2D simulationStep poi_pos interval distance steps.
    destruct (run_loop_closed getDistance2D simulationStep poi_pos interval
                distance steps initial_tracker
                (registry_closed_empty poi_pos)) as [Hcl Hexn].
    simpl. split; [done|]. intros key.
    destruct Hexn as [->|[-> _]]; done. }
  split; [done|]. intros env args. unfold main.
  destruct (SUMO_HOME env).
  - pose proof (build_sites_no_key_error env args) as Hsetup.
    destruct (build_sites env args) as [s [e|]]; simpl in *.
    + split; [apply registry_closed_empty|].
      intros key Heq. by apply (Hsetup key).
    + apply Hloop.
  - simpl. split; [apply registry_closed_empty|done].
Qed.

(** ** The properties on concrete runs *)

Import Examples.

(** C1.  A run in which a record changes in an iteration that is not a
    check step.  The interval is 2, the maximum distance 10, the only
    site "0" is at the origin.  In step 0 vehicle "v" is first reported,
    11 m from the site, and is recorded with no site.  In step 1, which
    is not a check step, it is reported 10 m from the site and its record
    becomes site "0": a record that holds no site is resolved again in
    every iteration. *)
Theorem unassociated_vehicle_resolved_off_check_step :
  let r0 := loop_iteration axis_distance approaching one_site 2 10 0
              initial_tracker in
  let r1 := loop_iteration axis_distance approaching one_site 2 10 1 r0.1 in
  r0.2 = None ∧ vehicles r0.1 !! "v" = Some None
  ∧ (1 `mod` 2 ≠ 0)%Z
  ∧ r1.2 = None ∧ vehicles r1.1 !! "v" = Some (Some "0").
Proof. repeat split; (done || (vm_compute; reflexivity)). Qed.

Lemma new_cell_site_first_nearest_witness :
  two_sites ≠ []
  ∧ ∃ i id c,
      first_nearest axis_distance two_sites (4 # 1, 0 # 1) i id c
      ∧ ((site_distance axis_distance c (4 # 1, 0 # 1) <= 10 # 1)%Q →
           new_cell_site axis_distance two_sites (4 # 1, 0 # 1) (10 # 1)
           = Some id)
      ∧ ((10 # 1 < site_distance axis_distance c (4 # 1, 0 # 1))%Q →
           new_cell_site axis_distance two_sites (4 # 1, 0 # 1) (10 # 1)
           = None).
Proof.
  split; [discriminate|].
  apply (new_cell_site_first_nearest axis_distance two_sites
           (4 # 1, 0 # 1) (10 # 1)).
  discriminate.
Defined.

Lemma assigned_to_0_closed (n : nat) :
  registry_closed two_sites (vehicles (assigned_to_0 n)).
Proof.
  intros key s H. simpl in H.
  apply lookup_singleton_Some in H as [_ [= <-]]. by eexists.
Qed.

Lemma assigned_vehicle_on_check_step_witness :
  ∃ st' c,
    loop_iteration axis_distance approaching two_sites 2 10 2
      (assigned_to_0 2) = (st', None)
    ∧ poi_lookup two_sites "0" = Some c
    ∧ ((site_distance axis_distance c (3 # 1, 0 # 1) <= inject_Z 10)%Q →
         vehicles st' !! "v" = Some (Some "0"))
    ∧ ((inject_Z 10 < site_distance axis_distance c (3 # 1, 0 # 1))%Q →
         ∃ r, vehicles st' !! "v" = Some r
           ∧ r = new_cell_site axis_distance two_sites (3 # 1, 0 # 1)
                   (inject_Z 10)
           ∧ nearest_in_range axis_distance two_sites (3 # 1, 0 # 1)
               (inject_Z 10) r).
Proof.
  apply (assigned_vehicle_on_check_step axis_distance approaching two_sites
           2 10 2 (assigned_to_0 2) "v" "0" (3 # 1, 0 # 1)).
  - discriminate.
  - reflexivity.
  - apply assigned_to_0_closed.
  - reflexivity.
  - discriminate.
  - apply not_elem_of_nil.
  - apply not_elem_of_nil.
  - apply NoDup_singleton.
  - simpl. left.
Defined.

Lemma new_vehicle_resolved_same_step_witness :
  ∃ st' r,
    loop_iteration axis_distance departing_late two_sites 2 10 1
      (idle_tracker 1) = (st', None)
    ∧ vehicles st' !! "v" = Some r
    ∧ r = new_cell_site axis_distance two_sites (11 # 1, 0 # 1)
            (inject_Z 10)
    ∧ nearest_in_range axis_distance two_sites (11 # 1, 0 # 1)
        (inject_Z 10) r.
Proof.
  apply (new_vehicle_resolved_same_step axis_distance departing_late
           two_sites 2 10 1 (idle_tracker 1) "v" (11 # 1, 0 # 1)).
  - discriminate.
  - apply registry_closed_empty.
  - reflexivity.
  - apply NoDup_singleton.
  - simpl. left.
Defined.

Lemma removal_never_raises_witness :
  ∃ st',
    loop_iteration axis_distance leaving two_sites 2 10 1 (assigned_to_0 1)
    = (st', None)
    ∧ stdout st' = (after_removals (leaving 1) (assigned_to_0 1)).2
    ∧ ∀ key, key ∉ getArrivedIDList (leaving 1) →
        key ∉ getEndingTeleportIDList (leaving 1) →
        (after_removals (leaving 1) (assigned_to_0 1)).1 !! key
        = vehicles (assigned_to_0 1) !! key.
Proof.
  refine (proj2 (removal_never_raises axis_distance leaving two_sites
                   2 10 1 (assigned_to_0 1) _ _)).
  - discriminate.
  - apply assigned_to_0_closed.
Defined.

(** What the removals of the second step of [leaving] print: vehicle "v"
    is removed once, and each further removal of "v" and the removal of
    "w", which has no record, prints its line. *)
Example leaving_run_prints :
  (after_removals (leaving 1) (assigned_to_0 1)).2
  = [arrived_msg; arrived_msg; teleported_msg]
  ∧ (after_removals (leaving 1) (assigned_to_0 1)).1 !! "v" = None.
Proof. split; vm_compute; reflexivity. Qed.

(** C8, as stated, fails.  The box is [0.5, 1.5] x [0.5, 1.5] and the
    generator draws the least number it can: the one site generated is at
    (0, 0), outside the box. *)
Lemma synthetic_site_outside_box :
  build_sites env0 args0
  = ({| pois := [("0", (inject_Z 0, inject_Z 0))];
        sites_csv := [("0", 0%Z, 0%Z)]; draws := 2 |}, None)
  ∧ ¬ Forall (λ r : string * Z * Z,
                in_bounding_box (getNetBoundary env0) r.1.2 r.2)
        (sites_csv (build_sites env0 args0).1).
Proof.
  split; [reflexivity|]. intros H.
  apply Forall_cons in H as [(Hx & _) _].
  vm_compute in Hx. by apply Hx.
Qed.

Lemma synthetic_sites_in_truncated_box_witness :
  ∃ rows,
    build_sites env0 args0
    = ({| pois := config_pois env0 ++ site_entries rows;
          sites_csv := rows;
          draws := 2 * Z.to_nat 1 |}, None)
    ∧ length rows = Z.to_nat 1
    ∧ rows.*1.*1 = pretty <$> seqZ 0 1
    ∧ Forall (λ r : string * Z * Z,
                in_truncated_box (getNetBoundary env0) r.1.2 r.2) rows.
Proof.
  apply (synthetic_sites_in_truncated_box env0 args0 1).
  - reflexivity.
  - reflexivity.
  - lia.
  - simpl. unfold Qle. simpl. lia.
  - simpl. unfold Qle. simpl. lia.
  - reflexivity.
Defined.

(** C7, as stated, fails.  A site file (with its net file) and a count
    of 5 are both given: start-up raises nothing, the registry holds the
    two sites of the file, no site is generated, and the loop runs its
    three steps. *)
Lemma conflicting_sources_accepted :
  truthy_input (arg_input args_both) = true
  ∧ truthy_count (arg_cell_sites args_both) = true
  ∧ (main env0 args_both).2 = None
  ∧ pois (main env0 args_both).1.1
    = [("100", (7 # 1, 0 # 1)); ("200", (8 # 1, 0 # 1))]
  ∧ sites_csv (main env0 args_both).1.1 = []
  ∧ sim_steps (main env0 args_both).1.2 = 3%nat.
Proof. repeat split; vm_compute; reflexivity. Qed.

Lemma site_source_errors_witness :
  SUMO_HOME env0 = true
  ∧ main env0 (with_cell_sites None args0)
    = ({| pois := []; sites_csv := []; draws := 0 |},
       initial_tracker, Some (TypeError no_source_msg))
  ∧ main env0 args_no_net
    = ({| pois := []; sites_csv := []; draws := 0 |},
       initial_tracker, Some (TypeError no_net_msg))
  ∧ main env0 (with_cell_sites (Some 5%Z) args_both)
    = main env0 (with_cell_sites None args_both).
Proof.
  split; [reflexivity|]. split; [|split].
  - apply (proj1 (site_source_errors env0 (with_cell_sites None args0)
                    eq_refl)); reflexivity.
  - apply (proj1 (proj2 (site_source_errors env0 args_no_net eq_refl)));
      reflexivity.
  - apply (proj2 (proj2 (site_source_errors env0 args_both eq_refl))).
    reflexivity.
Defined.

Lemma zero_count_is_no_source_witness :
  main env0 (with_cell_sites (Some 0%Z) args0)
  = ({| pois := []; sites_csv := []; draws := 0 |},
     initial_tracker, Some (TypeError no_source_msg))
  ∧ main env0 (with_cell_sites (Some 0%Z) args0)
    = main env0 (with_cell_sites None (with_cell_sites (Some 0%Z) args0)).
Proof.
  apply (zero_count_is_no_source env0 (with_cell_sites (Some 0%Z) args0));
    reflexivity.
Defined.

(** C6, as stated, fails.  With an interval of 0 start-up completes (the
    site is generated and written) and the run stops with
    [ZeroDivisionError], raised by the first iteration of the loop; with
    an interval of -2 no exception is raised at all and the loop runs its
    three steps. *)
Lemma nonpositive_interval_accepted :
  (arg_step (with_step 0 args0) ≤ 0)%Z
  ∧ build_sites env0 (with_step 0 args0)
    = ({| pois := [("0", (inject_Z 0, inject_Z 0))];
          sites_csv := [("0", 0%Z, 0%Z)]; draws := 2 |}, None)
  ∧ (main env0 (with_step 0 args0)).2 = Some ZeroDivisionError
  ∧ (arg_step (with_step (-2) args0) ≤ 0)%Z
  ∧ (main env0 (with_step (-2) args0)).2 = None
  ∧ sim_steps (main env0 (with_step (-2) args0)).1.2 = 3%nat.
Proof. repeat split; (done || (vm_compute; reflexivity)). Qed.

Lemma nonpositive_interval_not_rejected_witness :
  ∃ tr,
    main env0 (with_step (-2) args0)
    = ({| pois := [("0", (inject_Z 0, inject_Z 0))];
          sites_csv := [("0", 0%Z, 0%Z)]; draws := 2 |}, tr, None)
    ∧ sim_steps tr = Z.to_nat (arg_time (with_step (-2) args0) + 1).
Proof.
  apply (nonpositive_interval_not_rejected env0 (with_step (-2) args0)
           {| pois := [("0", (inject_Z 0, inject_Z 0))];
              sites_csv := [("0", 0%Z, 0%Z)]; draws := 2 |}).
  - reflexivity.
  - by vm_compute.
  - reflexivity.
  - by vm_compute.
Defined.

(** * Further properties of the scripts *)

(** ** The resolver *)

Section ResolverFacts.

Variable getDistance2D : Q → Q → Q → Q → Q.

Abbreviation dist_to := (site_distance getDistance2D).
Abbreviation resolve := (new_cell_site getDistance2D).

(** X1.  The resolver returns [None] exactly when every site of the
    registry is further from the position than [max_dist]; so it does on
    the empty registry. *)
Theorem new_cell_site_none_iff (poi_pos : list (string * coord))
    (veh_coord : coord) (max_dist : Q) :
  resolve poi_pos veh_coord max_dist = None
  ↔ ∀ i id c, poi_pos !! i = Some (id, c) →
      (max_dist < dist_to c veh_coord)%Q.
Proof.
  pose proof (new_cell_site_nearest getDistance2D poi_pos veh_coord
                max_dist) as H.
  unfold nearest_in_range in H.
  destruct poi_pos as [|entry rest].
  - split; [|done]. intros _ i id c Hi. by destruct i.
  - destruct H as (i & id & c & (Hi & Hmin & _) & Hin & Hout). split.
    + intros Hnone j id' c' Hj.
      destruct (Qlt_le_dec max_dist (dist_to c veh_coord)) as [Hlt|Hle].
      * eapply Qlt_le_trans; [exact Hlt|]. by eapply Hmin.
      * rewrite (Hin Hle) in Hnone. done.
    + intros Hall. apply Hout. by eapply Hall.
Qed.

(** X2.  A site the resolver returns is an entry of the registry within
    [max_dist] of the position, the first of the nearest ones. *)
Theorem new_cell_site_in_range (poi_pos : list (string * coord))
    (veh_coord : coord) (max_dist : Q) (id : string) :
  resolve poi_pos veh_coord max_dist = Some id →
  ∃ i c, first_nearest getDistance2D poi_pos veh_coord i id c
    ∧ (dist_to c veh_coord <= max_dist)%Q.
Proof.
  intros Hres.
  pose proof (new_cell_site_nearest getDistance2D poi_pos veh_coord
                max_dist) as H.
  unfold nearest_in_range in H. rewrite Hres in H.
  destruct poi_pos as [|entry rest]; [done|].
  destruct H as (i & id' & c & Hnear & Hin & Hout).
  destruct (Qlt_le_dec max_dist (dist_to c veh_coord)) as [Hlt|Hle].
  - by specialize (Hout Hlt).
  - specialize (Hin Hle). injection Hin as ->. by exists i, c.
Qed.

(** X3.  Raising the maximum distance never changes a site the resolver
    already returns. *)
Theorem new_cell_site_max_dist_mono (poi_pos : list (string * coord))
    (veh_coord : coord) (max_dist max_dist' : Q) (id : string) :
  resolve poi_pos veh_coord max_dist = Some id →
  (max_dist <= max_dist')%Q →
  resolve poi_pos veh_coord max_dist' = Some id.
Proof.
  unfold new_cell_site. intros Hres Hle.
  destruct (scan_sites getDistance2D poi_pos veh_coord (None, Inf))
    as [site [d|]]; simpl in *; [|done].
  destruct (Qle_bool d max_dist) eqn:E; [|done].
  apply Qle_bool_iff in E.
  assert (Qle_bool d max_dist' = true) as ->; [|done].
  apply Qle_bool_iff. by eapply Qle_trans.
Qed.

End ResolverFacts.

(** ** The removal loops *)

Lemma remove_all_gone (msg : string) (ids : list string)
    (st : gmap string (option string) * list string) (key : string) :
  key ∈ ids → (remove_all msg ids st).1 !! key = None.
Proof.
  revert st. induction ids as [|veh_id rest IH]; intros st Hin.
  - by apply elem_of_nil in Hin.
  - simpl. destruct (decide (key = veh_id)) as [->|Hne].
    + apply remove_all_none, remove_vehicle_gone.
    + apply IH. by apply elem_of_cons in Hin as [?|?].
Qed.

Lemma remove_all_lookup_cases (msg : string) (ids : list string)
    (st : gmap string (option string) * list string) (key : string) :
  (remove_all msg ids st).1 !! key = st.1 !! key
  ∨ (remove_all msg ids st).1 !! key = None.
Proof.
  destruct (decide (key ∈ ids)) as [Hin|Hnot].
  - right. by apply remove_all_gone.
  - left. by apply remove_all_other.
Qed.

Lemma remove_all_prefix (msg : string) (ids : list string)
    (st : gmap string (option string) * list string) :
  st.2 `prefix_of` (remove_all msg ids st).2.
Proof.
  revert st. induction ids as [|veh_id rest IH]; intros st; [done|].
  simpl. etrans; [|apply IH]. unfold remove_vehicle.
  destruct (st.1 !! veh_id); simpl; [done|]. by apply prefix_app_r.
Qed.

(** X4.  A removal loop prints its line once for each id it is given
    that has no record when its turn comes, and nothing else: the lines
    printed and the records deleted add up to the ids given. *)
Theorem removal_prints_one_line_per_miss (msg : string) (ids : list string)
    (st : gmap string (option string) * list string) :
  ∃ n, (remove_all msg ids st).2 = st.2 ++ replicate n msg
    ∧ (n + size st.1 = length ids + size (remove_all msg ids st).1)%nat.
Proof.
  revert st. induction ids as [|veh_id rest IH]; intros st.
  - exists 0%nat. simpl. by rewrite app_nil_r.
  - simpl. destruct (st.1 !! veh_id) as [v|] eqn:Hv.
    + assert (remove_vehicle msg st veh_id = (delete veh_id st.1, st.2))
        as -> by (unfold remove_vehicle; by rewrite Hv).
      destruct (IH (delete veh_id st.1, st.2)) as (n & Hlog & Hsize).
      exists n. split; [done|]. simpl in Hsize.
      rewrite <- (insert_delete_id st.1 veh_id v Hv) at 1.
      rewrite map_size_insert_None by apply lookup_delete_eq. lia.
    + assert (remove_vehicle msg st veh_id = (st.1, st.2 ++ [msg]))
        as -> by (unfold remove_vehicle; by rewrite Hv).
      destruct (IH (st.1, st.2 ++ [msg])) as (n & Hlog & Hsize).
      exists (S n). simpl in *. rewrite Hlog, <- app_assoc. split; [done|].
      lia.
Qed.

(** ** What one iteration does to one vehicle *)

Lemma poi_lookup_nodup (poi_pos : list (string * coord)) (i : nat)
    (id : string) (c : coord) :
  NoDup poi_pos.*1 → poi_pos !! i = Some (id, c) →
  poi_lookup poi_pos id = Some c.
Proof.
  revert i. induction poi_pos as [|[id0 c0] rest IH]; intros i Hnd Hi.
  - by destruct i.
  - rewrite fmap_cons in Hnd. apply NoDup_cons in Hnd as [Hfirst Hnd].
    simpl. destruct i as [|i]; simplify_eq/=.
    + by rewrite String.eqb_refl.
    + destruct (String.eqb id0 id) eqn:E; [|by eapply IH].
      apply String.eqb_eq in E as ->. exfalso. apply Hfirst.
      apply list_elem_of_fmap. exists (id, c). split; [done|].
      by eapply list_elem_of_lookup_2.
Qed.

Section IterationFacts.

Variable getDistance2D : Q → Q → Q → Q → Q.
Variable simulationStep : nat → step_events.

Abbreviation dist_to := (site_distance getDistance2D).
Abbreviation resolve := (new_cell_site getDistance2D).
Abbreviation assign := (assign_sites getDistance2D).
Abbreviation iteration := (loop_iteration getDistance2D simulationStep).
Abbreviation events st := (simulationStep (sim_steps st)).
Abbreviation removed st := (after_removals (events st) st).

(** With keys that are unique, the site the resolver returns is looked
    up at a position within [max_dist]. *)
Lemma resolved_site_lookup (poi_pos : list (string * coord))
    (veh_coord : coord) (max_dist : Q) (s : string) :
  NoDup poi_pos.*1 →
  resolve poi_pos veh_coord max_dist = Some s →
  ∃ c, poi_lookup poi_pos s = Some c
    ∧ (dist_to c veh_coord <= max_dist)%Q.
Proof.
  intros Hnd Hres.
  pose proof (new_cell_site_nearest getDistance2D poi_pos veh_coord
                max_dist) as H.
  unfold nearest_in_range in H. rewrite Hres in H.
  destruct poi_pos as [|entry rest]; [done|].
  destruct H as (i & id & c & (Hi & _) & Hin & Hout).
  destruct (Qlt_le_dec max_dist (dist_to c veh_coord)) as [Hlt|Hle].
  - by specialize (Hout Hlt).
  - specialize (Hin Hle). injection Hin as ->. exists c.
    split; [|done]. by eapply poi_lookup_nodup.
Qed.

(** The state an iteration leaves, field by field. *)
Lemma loop_iteration_state (poi_pos : list (string * coord))
    (interval distance step : Z) (st : tracker) :
  interval ≠ 0%Z → registry_closed poi_pos (vehicles st) →
  ∃ st', iteration poi_pos interval distance step st = (st', None)
    ∧ vehicles st'
      = (assign poi_pos (step `mod` interval =? 0)%Z distance
           (getAllSubscriptionResults (events st)) (removed st).1).1
    ∧ output_csv st'
      = (if (step `mod` interval =? 0)%Z
         then write_positions (vehicles st') step (output_csv st)
         else output_csv st)
    ∧ registry_closed poi_pos (vehicles st').
Proof.
  intros Hint Hcl. unfold loop_iteration.
  apply Z.eqb_neq in Hint. rewrite Hint.
  fold (after_removals (events st) st).
  destruct (assign_sites_closed getDistance2D poi_pos
              (step `mod` interval =? 0)%Z distance
              (getAllSubscriptionResults (events st))
              (removed st).1
              (after_removals_closed simulationStep poi_pos st Hcl))
    as [Hnone Hcl'].
  rewrite Hnone. eexists. split; [done|]. by simpl.
Qed.

(** A vehicle reported with a position that has no site recorded once
    the removals are done is given what the resolver returns. *)
Lemma iteration_resolves (poi_pos : list (string * coord))
    (interval distance step : Z) (st : tracker) (key : string)
    (pos : coord) :
  interval ≠ 0%Z → registry_closed poi_pos (vehicles st) →
  NoDup (getAllSubscriptionResults (events st)).*1 →
  (key, pos) ∈ getAllSubscriptionResults (events st) →
  default None ((removed st).1 !! key) = None →
  ∃ st', iteration poi_pos interval distance step st = (st', None)
    ∧ vehicles st' !! key = Some (resolve poi_pos pos (inject_Z distance)).
Proof.
  intros Hint Hcl Hnd Hin Hnone.
  destruct (loop_iteration_state poi_pos interval distance step st Hint Hcl)
    as (st' & Hit & Hveh & _).
  exists st'. split; [done|]. rewrite Hveh.
  rewrite (assign_sites_once _ _ _ _ _ _ _ pos);
    [|by apply after_removals_closed|done..].
  cbn [assign_sites].
  destruct ((removed st).1 !! key) as [[s|]|]; simpl in *;
    [done|by rewrite lookup_insert_eq..].
Qed.

(** X5.  A vehicle reported arrived or teleported, and not reported with
    a position, has no record when the iteration ends. *)
Theorem removed_vehicle_has_no_record (poi_pos : list (string * coord))
    (interval distance step : Z) (st : tracker) (key : string) :
  interval ≠ 0%Z → registry_closed poi_pos (vehicles st) →
  key ∈ getArrivedIDList (events st)
  ∨ key ∈ getEndingTeleportIDList (events st) →
  key ∉ (getAllSubscriptionResults (events st)).*1 →
  ∃ st', iteration poi_pos interval distance step st = (st', None)
    ∧ vehicles st' !! key = None.
Proof.
  intros Hint Hcl Hrem Hnot.
  destruct (loop_iteration_state poi_pos interval distance step st Hint Hcl)
    as (st' & Hit & Hveh & _).
  exists st'. split; [done|]. rewrite Hveh.
  rewrite assign_sites_other by done. unfold after_removals.
  destruct Hrem as [Harr|Htel].
  - by apply remove_all_none, remove_all_gone.
  - by apply remove_all_gone.
Qed.

(** X6.  Removal comes before resolution: a vehicle reported arrived or
    teleported and, in the same step, reported with a position loses its
    record and is given a new one by the resolver, on a check step or
    not, whatever site it had. *)
Theorem removed_then_reported_is_resolved
    (poi_pos : list (string * coord)) (interval distance step : Z)
    (st : tracker) (key : string) (pos : coord) :
  interval ≠ 0%Z → registry_closed poi_pos (vehicles st) →
  key ∈ getArrivedIDList (events st)
  ∨ key ∈ getEndingTeleportIDList (events st) →
  NoDup (getAllSubscriptionResults (events st)).*1 →
  (key, pos) ∈ getAllSubscriptionResults (events st) →
  ∃ st', iteration poi_pos interval distance step st = (st', None)
    ∧ vehicles st' !! key = Some (resolve poi_pos pos (inject_Z distance)).
Proof.
  intros Hint Hcl Hrem Hnd Hin.
  apply iteration_resolves; [done..|].
  assert ((removed st).1 !! key = None) as ->; [|done].
  unfold after_removals. destruct Hrem as [Harr|Htel].
  - by apply remove_all_none, remove_all_gone.
  - by apply remove_all_gone.
Qed.

(** X7.  A vehicle whose record holds no site is resolved again in every
    iteration in which it is reported with a position, on a check step or
    not. *)
Theorem unassociated_vehicle_resolved_every_step
    (poi_pos : list (string * coord)) (interval distance step : Z)
    (st : tracker) (key : string) (pos : coord) :
  interval ≠ 0%Z → registry_closed poi_pos (vehicles st) →
  vehicles st !! key = Some None →
  NoDup (getAllSubscriptionResults (events st)).*1 →
  (key, pos) ∈ getAllSubscriptionResults (events st) →
  ∃ st', iteration poi_pos interval distance step st = (st', None)
    ∧ vehicles st' !! key = Some (resolve poi_pos pos (inject_Z distance)).
Proof.
  intros Hint Hcl Hkey Hnd Hin.
  apply iteration_resolves; [done..|].
  unfold after_removals.
  destruct (remove_all_lookup_cases teleported_msg
              (getEndingTeleportIDList (events st))
              (remove_all arrived_msg (getArrivedIDList (events st))
                 (vehicles st, stdout st)) key) as [->| ->]; [|done].
  destruct (remove_all_lookup_cases arrived_msg
              (getArrivedIDList (events st))
              (vehicles st, stdout st) key) as [->| ->]; [|done].
  simpl. by rewrite Hkey.
Qed.

(** X8.  An iteration leaves as it is the record, or the absence of a
    record, of every vehicle that is neither reported arrived or
    teleported nor reported with a position, whatever the interval and
    even when the iteration raises. *)
Theorem unreported_vehicle_untouched (poi_pos : list (string * coord))
    (interval distance step : Z) (st : tracker) (key : string) :
  key ∉ getArrivedIDList (events st) →
  key ∉ getEndingTeleportIDList (events st) →
  key ∉ (getAllSubscriptionResults (events st)).*1 →
  vehicles (iteration poi_pos interval distance step st).1 !! key
  = vehicles st !! key.
Proof.
  intros Harr Htel Hnot. unfold loop_iteration.
  destruct (interval =? 0)%Z; [done|].
  fold (after_removals (events st) st).
  assert ((assign poi_pos (step `mod` interval =? 0)%Z distance
             (getAllSubscriptionResults (events st)) (removed st).1).1
            !! key = vehicles st !! key) as Hsame.
  { rewrite assign_sites_other by done. unfold after_removals.
    by rewrite !remove_all_other. }
  by destruct (assign _ _ _ _ _).2.
Qed.

(** X9.  After a check step, the site recorded for a vehicle reported
    with a position is within the maximum distance of that position,
    whether the site was kept or newly resolved; the registry has no two
    entries of the same id. *)
Theorem reported_vehicle_in_range_after_check_step
    (poi_pos : list (string * coord)) (interval distance step : Z)
    (st : tracker) (key : string) (pos : coord) :
  interval ≠ 0%Z → (step `mod` interval = 0)%Z →
  registry_closed poi_pos (vehicles st) →
  NoDup poi_pos.*1 →
  NoDup (getAllSubscriptionResults (events st)).*1 →
  (key, pos) ∈ getAllSubscriptionResults (events st) →
  ∃ st' r, iteration poi_pos interval distance step st = (st', None)
    ∧ vehicles st' !! key = Some r
    ∧ ∀ s, r = Some s →
        ∃ c, poi_lookup poi_pos s = Some c
          ∧ (dist_to c pos <= inject_Z distance)%Q.
Proof.
  intros Hint Hcheck Hcl Hpoi Hnd Hin.
  destruct (loop_iteration_state poi_pos interval distance step st Hint Hcl)
    as (st' & Hit & Hveh & _).
  exists st'.
  pose proof (after_removals_closed simulationStep poi_pos st Hcl) as Hcl'.
  assert (∀ m : gmap string (option string),
    ∃ r, <[key := resolve poi_pos pos (inject_Z distance)]> m !! key
         = Some r
      ∧ ∀ s, r = Some s →
          ∃ c, poi_lookup poi_pos s = Some c
            ∧ (dist_to c pos <= inject_Z distance)%Q) as Hres.
  { intros m. eexists. split; [apply lookup_insert_eq|].
    intros s Hs. by eapply resolved_site_lookup. }
  rewrite Hveh, Hcheck. change (0 =? 0)%Z with true.
  rewrite (assign_sites_once _ _ _ _ _ _ _ pos) by done.
  cbn [assign_sites].
  destruct ((removed st).1 !! key) as [[s|]|] eqn:Hkey; simpl;
    [|destruct (Hres (removed st).1) as (r & Hr & Hs); by exists r..].
  destruct (truthy_str s);
    [|destruct (Hres (removed st).1) as (r & Hr & Hs); by exists r].
  destruct (Hcl' key s Hkey) as [c Hc]. rewrite Hc.
  unfold check_connection. fold (dist_to c pos).
  destruct (float_lt _ _) eqn:Hlt; simpl.
  - destruct (Hres (removed st).1) as (r & Hr & Hs). by exists r.
  - exists (Some s). split; [done|]. split; [done|].
    intros s' [= <-]. exists c. split; [done|].
    by apply float_lt_finite_false.
Qed.

End IterationFacts.

(** ** The association file and the whole run *)

Section RunFacts.

Variable getDistance2D : Q → Q → Q → Q → Q.
Variable simulationStep : nat → step_events.

Abbreviation iteration := (loop_iteration getDistance2D simulationStep).
Abbreviation run := (run_loop getDistance2D simulationStep).
Abbreviation events st := (simulationStep (sim_steps st)).

(** The rows [write_positions] appends are the entries of [vehicles],
    each once, under the step given. *)
Lemma write_positions_rows (vehicles : gmap string (option string))
    (step : Z) (file : list (Z * string * option string)) :
  ∃ rows, write_positions vehicles step file = file ++ rows
    ∧ length rows = size vehicles
    ∧ NoDup (row_vehicle <$> rows)
    ∧ ∀ row, row ∈ rows
        ↔ row_step row = step
          ∧ vehicles !! row_vehicle row = Some (row_site row).
Proof.
  eexists. split; [done|]. split; [|split].
  - by rewrite length_fmap, length_map_to_list.
  - rewrite <- list_fmap_compose.
    apply (NoDup_fst_map_to_list vehicles).
  - intros [[stp veh] site]. unfold row_step, row_vehicle, row_site.
    simpl. rewrite list_elem_of_fmap. split.
    + intros ([k v] & [= -> -> ->] & Hin).
      by apply elem_of_map_to_list in Hin.
    + intros [-> Hlook]. exists (veh, site). split; [done|].
      by apply elem_of_map_to_list.
Qed.

(** X10.  A check step appends to the association file one row for each
    vehicle that has a record when the iteration ends, and no other row:
    the row holds the step, the vehicle and its site; the rows already in
    the file stay. *)
Theorem check_step_writes_snapshot (poi_pos : list (string * coord))
    (interval distance step : Z) (st : tracker) :
  interval ≠ 0%Z → (step `mod` interval = 0)%Z →
  registry_closed poi_pos (vehicles st) →
  ∃ st' rows,
    iteration poi_pos interval distance step st = (st', None)
    ∧ output_csv st' = output_csv st ++ rows
    ∧ length rows = size (vehicles st')
    ∧ NoDup (row_vehicle <$> rows)
    ∧ ∀ row, row ∈ rows
        ↔ row_step row = step
          ∧ vehicles st' !! row_vehicle row = Some (row_site row).
Proof.
  intros Hint Hcheck Hcl.
  destruct (loop_iteration_state getDistance2D simulationStep poi_pos
              interval distance step st Hint Hcl)
    as (st' & Hit & _ & Hout & _).
  rewrite Hcheck in Hout. change (0 =? 0)%Z with true in Hout.
  destruct (write_positions_rows (vehicles st') step (output_csv st))
    as (rows & Hrows & Hfacts).
  exists st', rows. split; [done|]. split; [congruence|done].
Qed.

(** X11.  Off a check step an iteration writes nothing to the
    association file, and a vehicle assigned to a site (of a non-empty
    id) that is not reported removed keeps that site, reported with a
    position or not. *)
Theorem off_check_step_nothing_written (poi_pos : list (string * coord))
    (interval distance step : Z) (st : tracker) (key s : string) :
  interval ≠ 0%Z → (step `mod` interval ≠ 0)%Z →
  registry_closed poi_pos (vehicles st) →
  vehicles st !! key = Some (Some s) → s ≠ "" →
  key ∉ getArrivedIDList (events st) →
  key ∉ getEndingTeleportIDList (events st) →
  NoDup (getAllSubscriptionResults (events st)).*1 →
  ∃ st', iteration poi_pos interval distance step st = (st', None)
    ∧ output_csv st' = output_csv st
    ∧ vehicles st' !! key = Some (Some s).
Proof.
  intros Hint Hoff Hcl Hkey Hs Harr Htel Hnd.
  destruct (loop_iteration_state getDistance2D simulationStep poi_pos
              interval distance step st Hint Hcl)
    as (st' & Hit & _ & Hout & _).
  destruct (assigned_kept_off_check_step getDistance2D simulationStep
              poi_pos interval distance step st key s)
    as (st'' & Hit' & Hkept); [done..|].
  rewrite Hit in Hit'. injection Hit' as <-.
  exists st'. split; [done|]. split; [|done].
  apply Z.eqb_neq in Hoff. by rewrite Hoff in Hout.
Qed.

Lemma loop_iteration_appends (poi_pos : list (string * coord))
    (interval distance step : Z) (st : tracker) :
  output_csv st
    `prefix_of` output_csv (iteration poi_pos interval distance step st).1
  ∧ stdout st
      `prefix_of` stdout (iteration poi_pos interval distance step st).1.
Proof.
  unfold loop_iteration. destruct (interval =? 0)%Z; [done|].
  assert (stdout st `prefix_of`
            (remove_all teleported_msg
               (getEndingTeleportIDList (events st))
               (remove_all arrived_msg (getArrivedIDList (events st))
                  (vehicles st, stdout st))).2) as Hlog.
  { etrans; [|apply remove_all_prefix].
    apply (remove_all_prefix arrived_msg _ (vehicles st, stdout st)). }
  destruct (assign_sites _ _ _ _ _ _).2; simpl; [done|].
  split; [|done].
  destruct (step `mod` interval =? 0)%Z; [|done].
  unfold write_positions. by apply prefix_app_r.
Qed.

(** X12.  The loop only ever appends to the association file and to the
    lines printed: what they held before any list of steps is a prefix
    of what they hold after it, also when the loop stops on an
    exception. *)
Theorem run_loop_append_only (poi_pos : list (string * coord))
    (interval distance : Z) (steps : list Z) (st : tracker) :
  output_csv st
    `prefix_of` output_csv (run poi_pos interval distance steps st).1
  ∧ stdout st
      `prefix_of` stdout (run poi_pos interval distance steps st).1.
Proof.
  revert st. induction steps as [|step rest IH]; intros st; [done|].
  cbn [run_loop].
  pose proof (loop_iteration_appends poi_pos interval distance step st)
    as [Hout Hlog].
  destruct (iteration poi_pos interval distance step st) as [st' [e|]];
    [done|].
  destruct (IH st') as [Hout' Hlog']. simpl in *.
  split; by etrans.
Qed.

(** The rows a run adds to the file are rows of check steps of the run,
    and their sites are keys of the registry. *)
Lemma run_loop_rows (poi_pos : list (string * coord))
    (interval distance : Z) (steps : list Z) (st : tracker)
    (row : Z * string * option string) :
  registry_closed poi_pos (vehicles st) →
  row ∈ output_csv (run poi_pos interval distance steps st).1 →
  row ∈ output_csv st
  ∨ (row_step row ∈ steps
     ∧ (row_step row `mod` interval = 0)%Z
     ∧ ∀ s, row_site row = Some s → is_Some (poi_lookup poi_pos s)).
Proof.
  revert st. induction steps as [|step rest IH]; intros st Hcl Hrow.
  - by left.
  - cbn [run_loop] in Hrow.
    destruct (decide (interval = 0%Z)) as [->|Hint].
    { rewrite loop_iteration_zero in Hrow. by left. }
    destruct (loop_iteration_state getDistance2D simulationStep poi_pos
                interval distance step st Hint Hcl)
      as (st' & Hit & _ & Hout & Hcl').
    rewrite Hit in Hrow.
    destruct (IH st' Hcl' Hrow) as [Hold|(Hstep & Hmod & Hsite)].
    + rewrite Hout in Hold.
      destruct (step `mod` interval =? 0)%Z eqn:Hcheck; [|by left].
      apply Z.eqb_eq in Hcheck.
      destruct (write_positions_rows (vehicles st') step (output_csv st))
        as (rows & Hrows & _ & _ & Hin).
      rewrite Hrows in Hold.
      apply elem_of_app in Hold as [Hold|Hnew]; [by left|].
      apply Hin in Hnew as [Hstep Hlook]. right. split; [|split].
      * rewrite Hstep. apply elem_of_cons. by left.
      * by rewrite Hstep.
      * intros s Hs. rewrite Hs in Hlook. by eapply Hcl'.
    + right. split; [|done]. apply elem_of_cons. by right.
Qed.

(** X13.  Every row of the association file a run leaves, from the empty
    tracker, carries one of the steps of the run, a step that is a
    multiple of the interval, and either no site or a site of the
    registry. *)
Theorem association_file_rows (poi_pos : list (string * coord))
    (interval distance : Z) (steps : list Z)
    (row : Z * string * option string) :
  row ∈ output_csv
          (run poi_pos interval distance steps initial_tracker).1 →
  row_step row ∈ steps
  ∧ (row_step row `mod` interval = 0)%Z
  ∧ ∀ s, row_site row = Some s → is_Some (poi_lookup poi_pos s).
Proof.
  intros Hrow.
  destruct (run_loop_rows poi_pos interval distance steps initial_tracker
              row (registry_closed_empty poi_pos) Hrow) as [Hold|H];
    [|done].
  by apply elem_of_nil in Hold.
Qed.

End RunFacts.

Lemma build_sites_no_zero_division (env : environment) (args : Args) :
  (build_sites env args).2 ≠ Some ZeroDivisionError.
Proof.
  unfold build_sites.
  destruct (truthy_input (arg_input args)).
  - destruct (arg_sumo_net args); [|done].
    destruct (read_csv env _); [|done]. by destruct (readNet env _).
  - destruct (truthy_count (arg_cell_sites args)); [|done].
    destruct (getNetBoundary env) as [lo hi]. intros H.
    by apply generate_sites_exn in H.
Qed.

(** X14.  [main] stops on [ZeroDivisionError] exactly when SUMO_HOME is
    set, start-up raises nothing, the interval is 0 and the loop has at
    least one step (the time is not negative). *)
Theorem main_zero_division_iff (env : environment) (args : Args) :
  (main env args).2 = Some ZeroDivisionError
  ↔ SUMO_HOME env = true
    ∧ (build_sites env args).2 = None
    ∧ arg_step args = 0%Z
    ∧ (0 ≤ arg_time args)%Z.
Proof.
  unfold main. split.
  - destruct (SUMO_HOME env); [|done].
    pose proof (build_sites_no_zero_division env args) as Hsetup.
    destruct (build_sites env args) as [s [e|]]; simpl in *.
    { intros [= ->]. done. }
    intros Hrun. split; [done|]. split; [done|].
    destruct (run_loop_closed (env_getDistance2D env)
                (env_simulationStep env) (pois s) (arg_step args)
                (arg_distance args) (loop_steps args) initial_tracker
                (registry_closed_empty (pois s))) as [_ [Hnone|[_ Hzero]]].
    { rewrite Hnone in Hrun. done. }
    split; [done|].
    destruct (decide (0 ≤ arg_time args)%Z) as [|Hneg]; [done|].
    unfold loop_steps in Hrun. by rewrite seqZ_nil in Hrun by lia.
  - intros (-> & Hsetup & Hzero & Htime).
    destruct (build_sites env args) as [s e]. simpl in Hsetup. subst e.
    rewrite Hzero. unfold loop_steps. by rewrite seqZ_cons by lia.
Qed.

(** X15.  With SUMO_HOME set, a start-up that raises nothing and an
    interval that is not 0, [main] raises nothing: the simulation is
    advanced once for each of the time+1 steps of the loop (not at all
    when the time is negative), and every site recorded at the end is a
    key of the registry. *)
Theorem main_completes (env : environment) (args : Args)
    (s : setup_state) :
  SUMO_HOME env = true →
  build_sites env args = (s, None) →
  arg_step args ≠ 0%Z →
  ∃ tr, main env args = (s, tr, None)
    ∧ sim_steps tr = Z.to_nat (arg_time args + 1)
    ∧ registry_closed (pois s) (vehicles tr).
Proof.
  intros Hhome Hsetup Hint. unfold main. rewrite Hhome, Hsetup.
  destruct (run_loop_completes (env_getDistance2D env)
              (env_simulationStep env) (pois s) (arg_step args)
              (arg_distance args) (loop_steps args) initial_tracker Hint
              (registry_closed_empty (pois s))) as (tr & Hrun & Hlen).
  exists tr. rewrite Hrun. split; [done|]. split.
  - rewrite Hlen. unfold loop_steps. by rewrite length_seqZ.
  - pose proof (run_loop_closed (env_getDistance2D env)
                  (env_simulationStep env) (pois s) (arg_step args)
                  (arg_distance args) (loop_steps args) initial_tracker
                  (registry_closed_empty (pois s))) as [Hcl _].
    by rewrite Hrun in Hcl.
Qed.

(** ** Start-up: the registry and the generated coordinates *)

Lemma poi_lookup_none_iff (pois : list (string * coord)) (id : string) :
  poi_lookup pois id = None ↔ id ∉ pois.*1.
Proof.
  induction pois as [|[k c] rest IH].
  - split; [|done]. intros _. apply not_elem_of_nil.
  - rewrite fmap_cons, not_elem_of_cons. simpl.
    destruct (String.eqb k id) eqn:E.
    + apply String.eqb_eq in E. split; [done|]. by intros [Hne _].
    + apply String.eqb_neq in E. rewrite IH. split.
      * intros Hnot. split; [by intros ->|done].
      * by intros [_ Hnot].
Qed.

Lemma poi_add_nodup (id : string) (c : coord)
    (pois : list (string * coord)) :
  NoDup pois.*1 → NoDup (poi_add id c pois).*1.
Proof.
  intros Hnd. unfold poi_add.
  destruct (poi_lookup pois id) eqn:E; [done|].
  apply poi_lookup_none_iff in E.
  rewrite fmap_app. apply NoDup_app. split; [done|]. split.
  - intros x Hx Hin. apply list_elem_of_singleton in Hin. by subst.
  - apply NoDup_singleton.
Qed.

Lemma poi_add_prefix (id : string) (c : coord)
    (pois : list (string * coord)) :
  pois `prefix_of` poi_add id c pois.
Proof.
  unfold poi_add. destruct (poi_lookup pois id); [done|].
  by apply prefix_app_r.
Qed.


Lemma randint_ok (a b raw x : Z) :
  randint a b raw = Ok x → (a ≤ x ≤ b)%Z.
Proof.
  unfold randint. destruct (b <? a)%Z eqn:E; [done|].
  apply Z.ltb_ge in E. intros [= <-].
  pose proof (Z.mod_pos_bound raw (b - a + 1)). lia.
Qed.

(** Whatever way the generation loop ends, the sites it was given stay,
    the keys stay unique, and the rows written are within the bounds. *)
Lemma generate_sites_keeps (random_source : nat → Z)
    (x_min x_max y_min y_max : Z) (ids : list Z) (s : setup_state) :
  let out := (generate_sites random_source x_min x_max y_min y_max ids
                s).1 in
  pois s `prefix_of` pois out
  ∧ (NoDup (pois s).*1 → NoDup (pois out).*1)
  ∧ (Forall (λ r : string * Z * Z,
               (x_min ≤ r.1.2 ≤ x_max)%Z ∧ (y_min ≤ r.2 ≤ y_max)%Z)
       (sites_csv s) →
     Forall (λ r : string * Z * Z,
               (x_min ≤ r.1.2 ≤ x_max)%Z ∧ (y_min ≤ r.2 ≤ y_max)%Z)
       (sites_csv out)).
Proof.
  revert s. induction ids as [|i rest IH]; intros s; [done|].
  cbn [generate_sites].
  destruct (randint x_min x_max _) as [x|e] eqn:Hx; [|done].
  destruct (randint y_min y_max _) as [y|e] eqn:Hy; [|done].
  apply randint_ok in Hx, Hy.
  destruct (IH {| pois := poi_add (pretty i) (inject_Z x, inject_Z y)
                            (pois s);
                  sites_csv := sites_csv s ++ [(pretty i, x, y)];
                  draws := S (S (draws s)) |}) as (Hpre & Hnd & Hall).
  simpl in *. split; [|split].
  - etrans; [apply poi_add_prefix|done].
  - intros H. by apply Hnd, poi_add_nodup.
  - intros H. apply Hall. apply Forall_app. split; [done|].
    by apply Forall_singleton.
Qed.




(** X18.  With no site file and a count of at least 1, a box whose upper
    bound is, once through [int], below its lower bound on either axis
    makes start-up raise [ValueError] at the first site: no site is
    added and no row written. *)
Theorem inverted_box_raises (env : environment) (args : Args) (N : Z) :
  truthy_input (arg_input args) = false →
  arg_cell_sites args = Some N → (1 ≤ N)%Z →
  (int_of_float (getNetBoundary env).2.1
   < int_of_float (getNetBoundary env).1.1)%Z
  ∨ (int_of_float (getNetBoundary env).2.2
     < int_of_float (getNetBoundary env).1.2)%Z →
  (build_sites env args).2 = Some ValueError
  ∧ pois (build_sites env args).1 = config_pois env
  ∧ sites_csv (build_sites env args).1 = [].
Proof.
  intros Hin Hcount HN Hbox. unfold build_sites.
  rewrite Hin, Hcount. simpl.
  destruct (N =? 0)%Z eqn:E; [apply Z.eqb_eq in E; lia|]. simpl.
  destruct (getNetBoundary env) as [[x0 y0] [x1 y1]]. simpl in *.
  rewrite seqZ_cons by lia. cbn [generate_sites]. unfold randint.
  destruct (int_of_float x1 <? int_of_float x0)%Z eqn:Ex; [done|].
  destruct (int_of_float y1 <? int_of_float y0)%Z eqn:Ey; [done|].
  apply Z.ltb_ge in Ex, Ey. lia.
Qed.

(** X19.  With no site file, a negative count raises nothing and builds
    no site: the registry is the points of interest of the configuration
    alone, whatever the box. *)
Theorem negative_count_builds_nothing (env : environment) (args : Args)
    (N : Z) :
  truthy_input (arg_input args) = false →
  arg_cell_sites args = Some N → (N < 0)%Z →
  build_sites env args
  = ({| pois := config_pois env; sites_csv := []; draws := 0 |}, None).
Proof.
  intros Hin Hcount HN. unfold build_sites. rewrite Hin, Hcount. simpl.
  destruct (N =? 0)%Z eqn:E; [apply Z.eqb_eq in E; lia|]. simpl.
  destruct (getNetBoundary env) as [lo hi].
  by rewrite seqZ_nil by lia.
Qed.

Lemma int_of_float_close (f : Q) :
  (f - 1 < inject_Z (int_of_float f))%Q
  ∧ (inject_Z (int_of_float f) < f + 1)%Q.
Proof.
  destruct f as [a b]. unfold int_of_float, Qlt, Qminus, Qplus, Qopp.
  simpl.
  pose proof (Z.quot_rem' a (Z.pos b)) as Hqr.
  pose proof (Z.rem_bound_abs a (Z.pos b)) as Hr.
  split; nia.
Qed.

Lemma int_of_float_inject (z : Z) : int_of_float (inject_Z z) = z.
Proof. unfold int_of_float. simpl. apply Z.quot_1_r. Qed.

(** Every row start-up writes to [output_sites_pos.csv], however it
    ends, is within the bounds of the box once through [int]. *)
Lemma build_sites_rows_truncated (env : environment) (args : Args) :
  Forall (λ r : string * Z * Z,
            in_truncated_box (getNetBoundary env) r.1.2 r.2)
    (sites_csv (build_sites env args).1).
Proof.
  unfold build_sites, in_truncated_box.
  destruct (truthy_input (arg_input args)).
  - destruct (arg_sumo_net args); [|done].
    destruct (read_csv env _); [|done]. by destruct (readNet env _).
  - destruct (truthy_count (arg_cell_sites args)); [|done].
    destruct (getNetBoundary env) as [lo hi].
    destruct (generate_sites_keeps (random_source env)
                (int_of_float lo.1) (int_of_float hi.1)
                (int_of_float lo.2) (int_of_float hi.2)
                (seqZ 0 (default 0%Z (arg_cell_sites args)))
                {| pois := config_pois env; sites_csv := [];
                   draws := 0 |}) as (_ & _ & Hall).
    by apply Hall.
Qed.

(** X20.  Every site start-up generates, however start-up ends, has
    coordinates less than one unit away from the bounding box on each
    axis. *)
Theorem generated_sites_near_box (env : environment) (args : Args) :
  Forall (λ r : string * Z * Z,
            near_bounding_box (getNetBoundary env) r.1.2 r.2)
    (sites_csv (build_sites env args).1).
Proof.
  eapply Forall_impl; [apply build_sites_rows_truncated|].
  intros [[id x] y]. unfold in_truncated_box, near_bounding_box. simpl.
  destruct (getNetBoundary env) as [[x0 y0] [x1 y1]]. simpl.
  intros [[Hx0 Hx1] [Hy0 Hy1]].
  rewrite Zle_Qle in Hx0, Hx1, Hy0, Hy1.
  destruct (int_of_float_close x0) as [Lx0 _].
  destruct (int_of_float_close x1) as [_ Ux1].
  destruct (int_of_float_close y0) as [Ly0 _].
  destruct (int_of_float_close y1) as [_ Uy1].
  repeat split.
  - by eapply Qlt_le_trans.
  - by eapply Qle_lt_trans.
  - by eapply Qlt_le_trans.
  - by eapply Qle_lt_trans.
Qed.

(** X21.  When the four bounds of the box are whole numbers, every site
    start-up generates is inside the box. *)
Theorem generated_sites_in_integral_box (env : environment) (args : Args)
    (x_min y_min x_max y_max : Z) :
  getNetBoundary env
  = ((inject_Z x_min, inject_Z y_min), (inject_Z x_max, inject_Z y_max)) →
  Forall (λ r : string * Z * Z,
            in_bounding_box (getNetBoundary env) r.1.2 r.2)
    (sites_csv (build_sites env args).1).
Proof.
  intros Hbox.
  eapply Forall_impl; [apply build_sites_rows_truncated|].
  intros [[id x] y]. unfold in_truncated_box, in_bounding_box.
  rewrite Hbox. simpl. rewrite !int_of_float_inject.
  intros [[Hx0 Hx1] [Hy0 Hy1]].
  rewrite Zle_Qle in Hx0, Hx1, Hy0, Hy1. done.
Qed.

(** ** The loop of [num_changes] *)

Section NumChangesFacts.

Context {K : Type} `{Countable K} {V : Type} `{EqDecision V}.

Variable nosite : V.

Abbreviation current changes veh_id :=
  (default (nosite, 0%Z) (changes !! veh_id)).

Lemma changes_from_bounds (prev : V) (vs : list V) :
  (0 ≤ changes_from prev vs ≤ Z.of_nat (length vs))%Z.
Proof.
  revert prev. induction vs as [|v rest IH]; intros prev; [simpl; lia|].
  specialize (IH v). cbn [changes_from length].
  destruct (decide (prev ≠ v)); lia.
Qed.

(** No value differs from the one before it exactly when every value is
    the one before the first. *)
Lemma changes_from_zero (prev : V) (vs : list V) :
  changes_from prev vs = 0%Z ↔ ∀ v, v ∈ vs → v = prev.
Proof.
  revert prev. induction vs as [|v rest IH]; intros prev; simpl.
  - split; [|done]. intros _ v Hv. by apply elem_of_nil in Hv.
  - pose proof (changes_from_bounds v rest) as Hb.
    destruct (decide (prev ≠ v)) as [Hne|Heq].
    + split; [lia|]. intros Hall. exfalso. apply Hne. symmetry.
      apply Hall. apply elem_of_cons. by left.
    + apply dec_stable in Heq. subst v. rewrite Z.add_0_l, IH.
      split.
      * intros Hall v Hv. apply elem_of_cons in Hv as [->|Hv]; [done|].
        by apply Hall.
      * intros Hall v Hv. apply Hall. apply elem_of_cons. by right.
Qed.

Lemma count_row_other (changes : gmap K (V * Z)) (row : K * V)
    (veh_id : K) :
  row.1 ≠ veh_id →
  count_row nosite changes row !! veh_id = changes !! veh_id.
Proof.
  intros Hne. unfold count_row.
  destruct (decide _); [|done]. by rewrite lookup_insert_ne.
Qed.

(** What the loop holds for a vehicle, as a pair that defaults to
    [(nosite, 0)]: the last site value of its rows and the number of
    values that differ from the one before. *)
Lemma count_rows_current (rows : list (K * V)) (changes : gmap K (V * Z))
    (veh_id : K) :
  current (count_rows nosite rows changes) veh_id
  = (default (current changes veh_id).1 (last (sites_of veh_id rows)),
     ((current changes veh_id).2
      + changes_from (current changes veh_id).1 (sites_of veh_id rows))%Z).
Proof.
  revert changes. induction rows as [|[k v] rest IH]; intros changes.
  - unfold sites_of. simpl. rewrite Z.add_0_r.
    by destruct (current changes veh_id).
  - cbn [count_rows]. rewrite IH. unfold sites_of.
    destruct (decide (k = veh_id)) as [->|Hne].
    + rewrite filter_cons_True by done. rewrite fmap_cons.
      cbn [snd changes_from]. rewrite last_cons.
      fold (sites_of veh_id rest).
      assert (current (count_row nosite changes (veh_id, v)) veh_id
              = (v, ((current changes veh_id).2
                     + (if decide ((current changes veh_id).1 ≠ v)
                        then 1 else 0))%Z)) as ->.
      { unfold count_row. simpl.
        destruct (decide ((current changes veh_id).1 ≠ v)) as [Hd|Hd].
        - by rewrite lookup_insert_eq.
        - apply dec_stable in Hd. rewrite Z.add_0_r, <- Hd.
          by destruct (current changes veh_id). }
      simpl. f_equal; [by destruct (last _)|lia].
    + rewrite filter_cons_False by done.
      by rewrite count_row_other.
Qed.

Lemma count_rows_keeps (rows : list (K * V)) (changes : gmap K (V * Z))
    (veh_id : K) :
  is_Some (changes !! veh_id) →
  is_Some (count_rows nosite rows changes !! veh_id).
Proof.
  revert changes. induction rows as [|row rest IH]; intros changes Hsome;
    [done|].
  cbn [count_rows]. apply IH. unfold count_row.
  destruct (decide _); [|done]. rewrite lookup_insert.
  by case_decide.
Qed.

(** A vehicle gets no entry exactly when no value of its rows differs
    from the one before, the first being compared with [nosite]. *)
Lemma count_rows_none (rows : list (K * V)) (changes : gmap K (V * Z))
    (veh_id : K) :
  changes !! veh_id = None →
  count_rows nosite rows changes !! veh_id = None
  ↔ changes_from nosite (sites_of veh_id rows) = 0%Z.
Proof.
  revert changes. induction rows as [|[k v] rest IH]; intros changes Hnone.
  - done.
  - cbn [count_rows]. unfold sites_of.
    destruct (decide (k = veh_id)) as [->|Hne].
    + rewrite filter_cons_True by done. rewrite fmap_cons.
      cbn [snd changes_from]. fold (sites_of veh_id rest).
      pose proof (changes_from_bounds v (sites_of veh_id rest)) as Hb.
      unfold count_row. simpl. rewrite Hnone. simpl.
      destruct (decide (nosite ≠ v)) as [Hd|Hd].
      * split; [|lia]. intros Habs.
        destruct (count_rows_keeps rest
                    (<[veh_id := (v, (0 + 1)%Z)]> changes) veh_id)
          as [p Hp]; [by rewrite lookup_insert_eq|]. congruence.
      * apply dec_stable in Hd. subst v. rewrite Z.add_0_l.
        by apply IH.
    + rewrite filter_cons_False by done. apply IH.
      by rewrite count_row_other.
Qed.

(** From [changes = {}]: the vehicle has no entry when the count is 0,
    and an entry it has holds the last site value and the count. *)
Lemma count_rows_from_empty (rows : list (K * V)) (veh_id : K) :
  (num_changes_loop nosite rows !! veh_id = None
   ↔ changes_from nosite (sites_of veh_id rows) = 0%Z)
  ∧ ∀ p, num_changes_loop nosite rows !! veh_id = Some p →
      p = (default nosite (last (sites_of veh_id rows)),
           changes_from nosite (sites_of veh_id rows)).
Proof.
  unfold num_changes_loop. split.
  - apply count_rows_none, lookup_empty.
  - intros p Hp.
    pose proof (count_rows_current rows ∅ veh_id) as Hcur.
    rewrite lookup_empty, Hp in Hcur. simpl in Hcur.
    by rewrite Hcur, Z.add_0_l.
Qed.

(** X22.  The loop of [num_changes] counts, for each vehicle, the site
    values of its rows that differ from the one before, the first being
    compared with '0'; the vehicle has an entry only when that count is
    not 0, and the entry holds the site value of its last row with the
    count. *)
Theorem num_changes_per_vehicle (rows : list (K * V)) (veh_id : K) :
  num_changes_loop nosite rows !! veh_id
  = if decide (changes_from nosite (sites_of veh_id rows) = 0%Z)
    then None
    else Some (default nosite (last (sites_of veh_id rows)),
               changes_from nosite (sites_of veh_id rows)).
Proof.
  destruct (count_rows_from_empty rows veh_id) as [Hnone Hsome].
  case_decide as Hzero.
  - by apply Hnone.
  - destruct (num_changes_loop nosite rows !! veh_id) as [p|] eqn:E.
    + by rewrite (Hsome p).
    + exfalso. by apply Hzero, Hnone.
Qed.

(** X23.  [changes_counter] holds at most one record per vehicle.  A
    vehicle has a record exactly when one of its rows holds a site value
    other than '0'; its count is then at least 1 and at most the number
    of its rows. *)
Theorem changes_counter_records (rows : list (K * V)) :
  NoDup (changes_counter (num_changes_loop nosite rows)).*1
  ∧ ∀ veh_id n,
      (veh_id, n) ∈ changes_counter (num_changes_loop nosite rows)
      ↔ n = changes_from nosite (sites_of veh_id rows)
        ∧ (1 ≤ n ≤ Z.of_nat (length (sites_of veh_id rows)))%Z
        ∧ ∃ v, v ∈ sites_of veh_id rows ∧ v ≠ nosite.
Proof.
  unfold changes_counter. split.
  - rewrite <- list_fmap_compose.
    apply (NoDup_fst_map_to_list (num_changes_loop nosite rows)).
  - intros veh_id n.
    pose proof (changes_from_bounds nosite (sites_of veh_id rows)) as Hb.
    pose proof (changes_from_zero nosite (sites_of veh_id rows)) as Hz.
    destruct (count_rows_from_empty rows veh_id) as [Hnone Hsome].
    rewrite list_elem_of_fmap. split.
    + intros ([k [last_site c]] & [= -> ->] & Hin).
      apply elem_of_map_to_list in Hin.
      pose proof (Hsome _ Hin) as [= _ ->].
      assert (changes_from nosite (sites_of k rows) ≠ 0%Z) as Hzero.
      { intros Hzero. apply Hnone in Hzero. congruence. }
      split; [done|]. split; [lia|].
      destruct (decide (Forall (λ v, v = nosite) (sites_of k rows)))
        as [Hall|Hex].
      * exfalso. apply Hzero, Hz. by apply Forall_forall.
      * apply not_Forall_Exists in Hex; [|apply _].
        apply Exists_exists in Hex as (v & Hv & Hne). by exists v.
    + intros (-> & Hn & _).
      destruct (num_changes_loop nosite rows !! veh_id) as [p|] eqn:E.
      * exists (veh_id, p). rewrite (Hsome p eq_refl). split; [done|].
        apply elem_of_map_to_list. by rewrite E, (Hsome p eq_refl).
      * assert (changes_from nosite (sites_of veh_id rows) = 0%Z)
          by by apply Hnone.
        lia.
Qed.

End NumChangesFacts.

(** ** The further properties on concrete runs *)

Import MoreExamples.

(** The loop of [num_changes] on a small file: the first site of a
    vehicle counts as a change, and a vehicle never given a site has no
    entry. *)
Example num_changes_small_file :
  num_changes_loop "0" association_rows !! "a" = Some ("2", 3%Z)
  ∧ num_changes_loop "0" association_rows !! "b" = None
  ∧ num_changes_loop "0" association_rows !! "c" = Some ("1", 1%Z).
Proof. repeat split; vm_compute; reflexivity. Qed.

Lemma unassociated_closed (poi_pos : list (string * coord)) (n : nat) :
  registry_closed poi_pos (vehicles (unassociated n)).
Proof.
  intros key s H. simpl in H.
  by apply lookup_singleton_Some in H as [_ [=]].
Qed.

Lemma new_cell_site_in_range_witness :
  ∃ i c, first_nearest axis_distance two_sites (5 # 1, 0 # 1) i "1" c
    ∧ (site_distance axis_distance c (5 # 1, 0 # 1) <= 10 # 1)%Q.
Proof.
  apply (new_cell_site_in_range axis_distance two_sites (5 # 1, 0 # 1)
           (10 # 1) "1").
  reflexivity.
Defined.

Lemma new_cell_site_max_dist_mono_witness :
  new_cell_site axis_distance two_sites (5 # 1, 0 # 1) (20 # 1) = Some "1".
Proof.
  apply (new_cell_site_max_dist_mono axis_distance two_sites
           (5 # 1, 0 # 1) (10 # 1) (20 # 1) "1").
  - reflexivity.
  - by vm_compute.
Defined.

Lemma removed_vehicle_has_no_record_witness :
  ∃ st', loop_iteration axis_distance leaving two_sites 2 10 1
           (assigned_to_0 1) = (st', None)
    ∧ vehicles st' !! "v" = None.
Proof.
  apply (removed_vehicle_has_no_record axis_distance leaving two_sites
           2 10 1 (assigned_to_0 1) "v").
  - discriminate.
  - apply assigned_to_0_closed.
  - left. simpl. left.
  - simpl. apply not_elem_of_nil.
Defined.

Lemma removed_then_reported_is_resolved_witness :
  ∃ st', loop_iteration axis_distance returning two_sites 2 10 1
           (assigned_to_0 1) = (st', None)
    ∧ vehicles st' !! "v"
      = Some (new_cell_site axis_distance two_sites (7 # 1, 0 # 1)
                (inject_Z 10)).
Proof.
  apply (removed_then_reported_is_resolved axis_distance returning
           two_sites 2 10 1 (assigned_to_0 1) "v" (7 # 1, 0 # 1)).
  - discriminate.
  - apply assigned_to_0_closed.
  - left. simpl. left.
  - apply NoDup_singleton.
  - simpl. left.
Defined.

Lemma unassociated_vehicle_resolved_every_step_witness :
  ∃ st', loop_iteration axis_distance approaching one_site 2 10 1
           (unassociated 1) = (st', None)
    ∧ vehicles st' !! "v"
      = Some (new_cell_site axis_distance one_site (10 # 1, 0 # 1)
                (inject_Z 10)).
Proof.
  apply (unassociated_vehicle_resolved_every_step axis_distance
           approaching one_site 2 10 1 (unassociated 1) "v"
           (10 # 1, 0 # 1)).
  - discriminate.
  - apply unassociated_closed.
  - reflexivity.
  - apply NoDup_singleton.
  - simpl. left.
Defined.

Lemma unreported_vehicle_untouched_witness :
  vehicles (loop_iteration axis_distance leaving two_sites 2 10 0
              (assigned_to_0 0)).1 !! "w"
  = vehicles (assigned_to_0 0) !! "w".
Proof.
  apply (unreported_vehicle_untouched axis_distance leaving two_sites
           2 10 0 (assigned_to_0 0) "w").
  - apply not_elem_of_nil.
  - apply not_elem_of_nil.
  - simpl. apply not_elem_of_cons. split; [discriminate|].
    apply not_elem_of_nil.
Defined.

Lemma two_sites_keys_unique : NoDup two_sites.*1.
Proof.
  simpl. apply NoDup_cons. split; [|apply NoDup_singleton].
  apply not_elem_of_cons. split; [discriminate|apply not_elem_of_nil].
Qed.

Lemma reported_vehicle_in_range_after_check_step_witness :
  ∃ st' r, loop_iteration axis_distance approaching two_sites 2 10 2
             (assigned_to_0 2) = (st', None)
    ∧ vehicles st' !! "v" = Some r
    ∧ ∀ s, r = Some s →
        ∃ c, poi_lookup two_sites s = Some c
          ∧ (site_distance axis_distance c (3 # 1, 0 # 1)
             <= inject_Z 10)%Q.
Proof.
  apply (reported_vehicle_in_range_after_check_step axis_distance
           approaching two_sites 2 10 2 (assigned_to_0 2) "v"
           (3 # 1, 0 # 1)).
  - discriminate.
  - reflexivity.
  - apply assigned_to_0_closed.
  - apply two_sites_keys_unique.
  - apply NoDup_singleton.
  - simpl. left.
Defined.

Lemma check_step_writes_snapshot_witness :
  ∃ st' rows,
    loop_iteration axis_distance approaching two_sites 2 10 2
      (assigned_to_0 2) = (st', None)
    ∧ output_csv st' = output_csv (assigned_to_0 2) ++ rows
    ∧ length rows = size (vehicles st')
    ∧ NoDup (row_vehicle <$> rows)
    ∧ ∀ row, row ∈ rows
        ↔ row_step row = 2%Z
          ∧ vehicles st' !! row_vehicle row = Some (row_site row).
Proof.
  apply (check_step_writes_snapshot axis_distance approaching two_sites
           2 10 2 (assigned_to_0 2)).
  - discriminate.
  - reflexivity.
  - apply assigned_to_0_closed.
Defined.

Lemma off_check_step_nothing_written_witness :
  ∃ st', loop_iteration axis_distance approaching two_sites 2 10 1
           (assigned_to_0 1) = (st', None)
    ∧ output_csv st' = output_csv (assigned_to_0 1)
    ∧ vehicles st' !! "v" = Some (Some "0").
Proof.
  apply (off_check_step_nothing_written axis_distance approaching
           two_sites 2 10 1 (assigned_to_0 1) "v" "0").
  - discriminate.
  - discriminate.
  - apply assigned_to_0_closed.
  - reflexivity.
  - discriminate.
  - apply not_elem_of_nil.
  - apply not_elem_of_nil.
  - apply NoDup_singleton.
Defined.

Lemma association_file_rows_witness :
  row_step (2%Z, "v", Some "0") ∈ [0; 1; 2]%Z
  ∧ (row_step (2%Z, "v", Some "0") `mod` 2 = 0)%Z
  ∧ ∀ s, row_site (2%Z, "v", Some "0") = Some s →
      is_Some (poi_lookup one_site s).
Proof.
  apply (association_file_rows axis_distance approaching one_site 2 10
           [0; 1; 2]%Z (2%Z, "v", Some "0")).
  vm_compute. right. left.
Defined.

Lemma main_completes_witness :
  ∃ tr, main env0 args0
        = ({| pois := [("0", (inject_Z 0, inject_Z 0))];
              sites_csv := [("0", 0%Z, 0%Z)]; draws := 2 |}, tr, None)
    ∧ sim_steps tr = Z.to_nat (arg_time args0 + 1)
    ∧ registry_closed [("0", (inject_Z 0, inject_Z 0))] (vehicles tr).
Proof.
  apply (main_completes env0 args0
           {| pois := [("0", (inject_Z 0, inject_Z 0))];
              sites_csv := [("0", 0%Z, 0%Z)]; draws := 2 |}).
  - reflexivity.
  - reflexivity.
  - discriminate.
Defined.


Lemma inverted_box_raises_witness :
  (build_sites env_inverted args0).2 = Some ValueError
  ∧ pois (build_sites env_inverted args0).1 = config_pois env_inverted
  ∧ sites_csv (build_sites env_inverted args0).1 = [].
Proof.
  apply (inverted_box_raises env_inverted args0 1).
  - reflexivity.
  - reflexivity.
  - by vm_compute.
  - left. by vm_compute.
Defined.

Lemma negative_count_builds_nothing_witness :
  build_sites env0 (with_cell_sites (Some (-3)%Z) args0)
  = ({| pois := config_pois env0; sites_csv := []; draws := 0 |}, None).
Proof.
  apply (negative_count_builds_nothing env0
           (with_cell_sites (Some (-3)%Z) args0) (-3)).
  - reflexivity.
  - reflexivity.
  - by vm_compute.
Defined.

Lemma generated_sites_in_integral_box_witness :
  Forall (λ r : string * Z * Z,
            in_bounding_box (getNetBoundary env_integral) r.1.2 r.2)
    (sites_csv (build_sites env_integral
                  (with_cell_sites (Some 3%Z) args0)).1).
Proof.
  apply (generated_sites_in_integral_box env_integral
           (with_cell_sites (Some 3%Z) args0) 0 0 10 10).
  reflexivity.
Defined.

(** The three sites of the run above, from the draws 3, 10, 17, 24, 31
    and 38 taken modulo the 11 whole numbers of each side of the box. *)
Example integral_box_sites :
  sites_csv (build_sites env_integral
               (with_cell_sites (Some 3%Z) args0)).1
  = [("0", 3%Z, 10%Z); ("1", 6%Z, 2%Z); ("2", 9%Z, 5%Z)].
Proof. vm_compute. reflexivity. Qed.
